(** * Collections-C dynamic array ([src/array.c]): a shallow embedding

    The development models the resizable array of [array.c] and its cursor.

    Platform assumptions of the model (the usual LP64 targets of the library):
    - [size_t] is a 64-bit unsigned integer, modelled as [Z] with the
      wrap-around modulo [2^64] written out at every arithmetic operation;
    - a pointer occupies 8 bytes;
    - [float] is IEEE-754 binary32 with round-to-nearest-even, modelled by
      the parametric specification of the standard library at precision 24.

    Memory is modelled at the granularity the code uses it: a buffer is a
    block of pointer-sized slots, the allocator may refuse any request, and
    every access outside a block (or through a null pointer) is undefined
    behaviour, an outcome of its own that is never confused with a result. *)

From Stdlib Require Import ZArith Lia.
From Stdlib Require Import Floats.SpecFloat.
From stdpp Require Import base tactics option list.

Open Scope Z_scope.

(** ** Machine integers: [size_t] *)

Definition SIZE_MAX : Z := 2 ^ 64 - 1.

(** Reduction of a mathematical integer to its [size_t] representative. *)
Definition wrap (z : Z) : Z := z mod 2 ^ 64.

Definition size_add (a b : Z) : Z := wrap (a + b).
Definition size_sub (a b : Z) : Z := wrap (a - b).
Definition size_mul (a b : Z) : Z := wrap (a * b).

Definition sizeof_ptr : Z := 8.

(** ** Machine floats: [float] as binary32 *)

Definition float : Type := spec_float.

Definition float_of_Z (z : Z) : float := binary_normalize 24 128 z 0 false.

Definition float_mul (x y : float) : float := SFmul 24 128 x y.

(** [x <= y] on floats; false as soon as one side is a NaN. *)
Definition float_le (x y : float) : bool := SFleb x y.
Definition float_lt (x y : float) : bool := SFltb x y.

(** Conversion of a [float] to [size_t]: the fractional part is discarded;
    the conversion is undefined ([None]) when the integral part does not fit
    [size_t], and for infinities and NaN. *)
Definition size_of_float (x : float) : option Z :=
  match x with
  | S754_zero _ => Some 0
  | S754_finite s m e =>
      let t := Z.shiftl (Zpos m) e in
      if s then (if t =? 0 then Some 0 else None)
      else if t <=? SIZE_MAX then Some t else None
  | S754_infinity _ | S754_nan => None
  end.

(** The all-bits-zero float found in memory handed out by [calloc]. *)
Definition float_zero : float := S754_zero false.

(** ** Element handles and memory blocks *)

(** A [void*] element handle is an opaque address; [NULL] is address 0. *)
Definition ptr : Type := Z.
Definition NULL : ptr := 0.

(** Addresses of functions (the allocator triple is stored as pointers). *)
Definition fnptr : Type := Z.
Definition libc_malloc : fnptr := 1.
Definition libc_calloc : fnptr := 2.
Definition libc_free : fnptr := 3.

(** One pointer-sized slot of a block: indeterminate until written, as in
    memory returned by [malloc]. *)
Inductive slot : Type :=
  | Indet
  | Val (p : ptr).

(** A block of slots; a [void**] is either null ([None]) or points to the
    first slot of a live block. *)
Abbreviation block := (list slot).
Definition bufptr : Type := option block.

(** ** The effect monad: allocator outcomes and undefined behaviour *)

(** The world holds the outcomes of the allocator calls still to come, in
    call order ([true]: the request is served). Once the list is exhausted
    every request is served. *)
Definition world : Type := list bool.

Inductive outcome (A : Type) : Type :=
  | Undefined
  | Done (a : A) (w : world).
Arguments Undefined {A}.
Arguments Done {A} a w.

Definition M (A : Type) : Type := world -> outcome A.

Definition ret {A} (a : A) : M A := fun w => Done a w.

Definition bind {A B} (m : M A) (k : A -> M B) : M B :=
  fun w => match m w with
           | Undefined => Undefined
           | Done a w' => k a w'
           end.

Definition undefined {A} : M A := fun _ => Undefined.

Notation "x <- m ;; k" := (bind m (fun x => k))
  (at level 100, m at next level, right associativity).

(** The next answer of the allocator. *)
Definition alloc_ok : M bool :=
  fun w => match w with
           | [] => Done true []
           | b :: w' => Done b w'
           end.

(** A call [f(bytes)] through an allocation pointer: null on refusal, else a
    fresh block of [bytes / sizeof(void* )] indeterminate slots. *)
Definition call_alloc (f : fnptr) (bytes : Z) : M bufptr :=
  ok <- alloc_ok ;;
  ret (if ok then Some (replicate (Z.to_nat (bytes / sizeof_ptr)) Indet) else None).

(** A call [f(blocks, sizeof(void* ))] through a zero-allocation pointer:
    null on refusal or when the byte count does not fit [size_t], else a
    fresh block of [blocks] null handles. *)
Definition call_calloc (f : fnptr) (blocks : Z) : M bufptr :=
  ok <- alloc_ok ;;
  ret (if ok && (blocks * sizeof_ptr <=? SIZE_MAX)
       then Some (replicate (Z.to_nat blocks) (Val NULL)) else None).

(** Allocation of the array structure itself: only success matters. *)
Definition call_alloc_struct (f : fnptr) : M bool := alloc_ok.

(** Releasing a block has no effect that the model observes. *)
Definition call_free (f : fnptr) (b : bufptr) : M unit := ret tt.

(** [b[i]] read as a handle. Undefined through a null pointer, outside the
    block, and on an indeterminate slot. *)
Definition load (b : bufptr) (i : Z) : M ptr :=
  match b with
  | None => undefined
  | Some l =>
      if 0 <=? i then
        match l !! Z.to_nat i with
        | Some (Val p) => ret p
        | _ => undefined
        end
      else undefined
  end.

(** [b[i] = v]. Undefined through a null pointer and outside the block. *)
Definition store (b : bufptr) (i : Z) (v : ptr) : M bufptr :=
  match b with
  | None => undefined
  | Some l =>
      if (0 <=? i) && (i <? Z.of_nat (length l))
      then ret (Some (<[Z.to_nat i := Val v]> l))
      else undefined
  end.

(** The slots of [dst] after copying [n] slots from [src] at [soff] to
    [dst] at [doff]. *)
Definition blit (dst : block) (doff : Z) (src : block) (soff n : Z) : block :=
  take (Z.to_nat doff) dst
  ++ take (Z.to_nat n) (drop (Z.to_nat soff) src)
  ++ drop (Z.to_nat (doff + n)) dst.

(** [memmove(&dst[doff], &src[soff], bytes)]: the source range is read as a
    whole, then written, so overlapping ranges are fine. Undefined through a
    null pointer or when a range leaves its block. *)
Definition memmove (dst : bufptr) (doff : Z) (src : bufptr) (soff bytes : Z) : M bufptr :=
  match dst, src with
  | Some d, Some s =>
      let n := bytes / sizeof_ptr in
      if (0 <=? doff) && (0 <=? soff) && (0 <=? n)
         && (soff + n <=? Z.of_nat (length s))
         && (doff + n <=? Z.of_nat (length d))
      then ret (Some (blit d doff s soff n))
      else undefined
  | _, _ => undefined
  end.

(** [memcpy] is only ever called here on distinct blocks, where it agrees
    with [memmove]. *)
Definition memcpy (dst : bufptr) (doff : Z) (src : bufptr) (soff bytes : Z) : M bufptr :=
  memmove dst doff src soff bytes.

(** ** The array structure and its configuration *)

Definition DEFAULT_CAPACITY : Z := 8.
Definition DEFAULT_EXPANSION_FACTOR : Z := 2.

(** [struct array_s]. *)
Record Array : Type := mkArray {
  size : Z;
  capacity : Z;
  exp_factor : float;
  buffer : bufptr;
  mem_alloc : fnptr;
  mem_calloc : fnptr;
  mem_free : fnptr
}.

(** [ArrayConf], the configuration read by [array_new_conf]. *)
Record ArrayConf : Type := mkArrayConf {
  conf_exp_factor : float;
  conf_capacity : Z;
  conf_mem_alloc : fnptr;
  conf_mem_calloc : fnptr;
  conf_mem_free : fnptr
}.

(** [ArrayIter]. The pointer [iter->ar] is the only reference to the array
    used while a cursor is live, so the cursor carries the array it points
    to and every cursor operation returns the cursor with the array as the
    operation left it. *)
Record ArrayIter : Type := mkArrayIter {
  iter_ar : Array;
  iter_index : Z
}.

Definition set_size (ar : Array) (n : Z) : Array :=
  mkArray n (capacity ar) (exp_factor ar) (buffer ar)
          (mem_alloc ar) (mem_calloc ar) (mem_free ar).

Definition set_capacity (ar : Array) (n : Z) : Array :=
  mkArray (size ar) n (exp_factor ar) (buffer ar)
          (mem_alloc ar) (mem_calloc ar) (mem_free ar).

Definition set_exp_factor (ar : Array) (f : float) : Array :=
  mkArray (size ar) (capacity ar) f (buffer ar)
          (mem_alloc ar) (mem_calloc ar) (mem_free ar).

Definition set_buffer (ar : Array) (b : bufptr) : Array :=
  mkArray (size ar) (capacity ar) (exp_factor ar) b
          (mem_alloc ar) (mem_calloc ar) (mem_free ar).

Definition set_allocators (ar : Array) (a c f : fnptr) : Array :=
  mkArray (size ar) (capacity ar) (exp_factor ar) (buffer ar) a c f.

(** The structure as [calloc(1, sizeof(Array))] hands it out. *)
Definition zeroed_Array : Array :=
  mkArray 0 0 float_zero None NULL NULL NULL.

(** [array_conf_init] *)
Definition array_conf_init : ArrayConf :=
  mkArrayConf (float_of_Z DEFAULT_EXPANSION_FACTOR) DEFAULT_CAPACITY
              libc_malloc libc_calloc libc_free.

(** ** Operations that do not depend on the element ceiling *)

(** [array_remove_at] *)
Definition array_remove_at (ar : Array) (index : Z) : M (Array * ptr) :=
  if size ar <=? index then ret (ar, NULL)
  else
    e <- load (buffer ar) index ;;
    buf <- (if negb (index =? size_sub (size ar) 1)
            then
              let block_size := size_mul (size_sub (size ar) index) sizeof_ptr in
              memmove (buffer ar) index (buffer ar) (size_add index 1) block_size
            else ret (buffer ar)) ;;
    ret (set_size (set_buffer ar buf) (size_sub (size ar) 1), e).

(** [array_remove_last] *)
Definition array_remove_last (ar : Array) : M (Array * ptr) :=
  array_remove_at ar (size_sub (size ar) 1).

(** [array_remove_all] *)
Definition array_remove_all (ar : Array) : Array := set_size ar 0.

(** [array_get] *)
Definition array_get (ar : Array) (index : Z) : M ptr :=
  if size ar <=? index then ret NULL
  else load (buffer ar) index.

(** [array_get_last] *)
Definition array_get_last (ar : Array) : M ptr :=
  array_get ar (size_sub (size ar) 1).

(** [array_size], [array_capacity] *)
Definition array_size (ar : Array) : Z := size ar.
Definition array_capacity (ar : Array) : Z := capacity ar.

(** [array_subarray]. The new structure comes zeroed from [mem_calloc] and
    is used without a null check; the fields the function assigns are the
    allocator triple, [size], [capacity] and [buffer]. *)
Definition array_subarray (ar : Array) (b e : Z) : M (option Array) :=
  if (e <? b) || (size ar <? e) then ret None
  else
    ok <- call_alloc_struct (mem_calloc ar) ;;
    if negb ok then undefined
    else
      let sub_ar := set_allocators zeroed_Array (mem_alloc ar) (mem_calloc ar) (mem_free ar) in
      let sub_ar := set_size sub_ar (size_add (size_sub e b) 1) in
      let sub_ar := set_capacity sub_ar (size sub_ar) in
      buf <- call_alloc (mem_alloc ar) (size_mul (capacity sub_ar) sizeof_ptr) ;;
      buf <- memcpy buf 0 (buffer ar) b (size_mul (size sub_ar) sizeof_ptr) ;;
      ret (Some (set_buffer sub_ar buf)).

(** [array_copy_shallow]. The new structure comes from [mem_alloc] and is
    used without a null check; every field is assigned. *)
Definition array_copy_shallow (ar : Array) : M Array :=
  ok <- call_alloc_struct (mem_alloc ar) ;;
  if negb ok then undefined
  else
    buf <- call_calloc (mem_calloc ar) (capacity ar) ;;
    buf <- memcpy buf 0 (buffer ar) 0 (size_mul (size ar) sizeof_ptr) ;;
    ret (mkArray (size ar) (capacity ar) (exp_factor ar) buf
                 (mem_alloc ar) (mem_calloc ar) (mem_free ar)).

(** The loop of [array_copy_deep]: [n] iterations remain, [i] is the loop
    index. *)
Fixpoint copy_deep_loop (cp : ptr -> ptr) (src : bufptr) (n : nat) (i : Z)
    (dst : bufptr) : M bufptr :=
  match n with
  | O => ret dst
  | S n' =>
      e <- load src i ;;
      dst' <- store dst i (cp e) ;;
      copy_deep_loop cp src n' (size_add i 1) dst'
  end.

(** [array_copy_deep] *)
Definition array_copy_deep (ar : Array) (cp : ptr -> ptr) : M Array :=
  ok <- call_alloc_struct (mem_alloc ar) ;;
  if negb ok then undefined
  else
    buf <- call_calloc (mem_calloc ar) (capacity ar) ;;
    buf <- copy_deep_loop cp (buffer ar) (Z.to_nat (size ar)) 0 buf ;;
    ret (mkArray (size ar) (capacity ar) (exp_factor ar) buf
                 (mem_alloc ar) (mem_calloc ar) (mem_free ar)).

(** The loop of [array_reverse]: [n] iterations remain; each one swaps
    [buffer[i]] and [buffer[j]], then steps [i] up and [j] down. *)
Fixpoint reverse_loop (n : nat) (i j : Z) (buf : bufptr) : M bufptr :=
  match n with
  | O => ret buf
  | S n' =>
      tmp <- load buf i ;;
      x <- load buf j ;;
      buf1 <- store buf i x ;;
      buf2 <- store buf1 j tmp ;;
      reverse_loop n' (size_add i 1) (size_sub j 1) buf2
  end.

(** [array_reverse]. The loop condition [i < (size - 1) / 2] does not change
    while the loop runs, so the loop body runs [(size - 1) / 2] times, with
    [size - 1] computed in [size_t]. *)
Definition array_reverse (ar : Array) : M Array :=
  buf <- reverse_loop (Z.to_nat (size_sub (size ar) 1 / 2))
                      0 (size_sub (size ar) 1) (buffer ar) ;;
  ret (set_buffer ar buf).

(** [array_trim_capacity] *)
Definition array_trim_capacity (ar : Array) : M Array :=
  if size ar =? capacity ar then ret ar
  else
    new_buff <- call_calloc (mem_calloc ar) (size ar) ;;
    let sz := if size ar <? 1 then 1 else size ar in
    new_buff <- memcpy new_buff 0 (buffer ar) 0 (size_mul sz sizeof_ptr) ;;
    _ <- call_free (mem_free ar) (buffer ar) ;;
    ret (set_capacity (set_buffer ar new_buff) (size ar)).

(** [array_iter_init] *)
Definition array_iter_init (ar : Array) : ArrayIter := mkArrayIter ar 0.

(** [array_iter_has_next] *)
Definition array_iter_has_next (iter : ArrayIter) : bool :=
  iter_index iter <? size (iter_ar iter).

(** [array_iter_next] *)
Definition array_iter_next (iter : ArrayIter) : M (ArrayIter * ptr) :=
  e <- load (buffer (iter_ar iter)) (iter_index iter) ;;
  ret (mkArrayIter (iter_ar iter) (size_add (iter_index iter) 1), e).

(** [array_iter_index] *)
Definition array_iter_index (iter : ArrayIter) : Z :=
  size_sub (iter_index iter) 1.

(** ** Operations that depend on the element ceiling

    [MAX_ELEMENTS] is defined in a header of the library; the operations
    below take it as a parameter, a value of type [size_t]. *)

Section Ceiling.

Variable MAX_ELEMENTS : Z.

(** [expand_capacity]. The [capacity] field is assigned before the new
    buffer is requested, and the request is for [new_capacity] slots. *)
Definition expand_capacity (ar : Array) : M (Array * bool) :=
  if capacity ar =? MAX_ELEMENTS then ret (ar, false)
  else
    match size_of_float (float_mul (float_of_Z (capacity ar)) (exp_factor ar)) with
    | None => undefined
    | Some new_capacity =>
        let ar1 :=
          if new_capacity <=? capacity ar
          then set_capacity ar MAX_ELEMENTS
          else set_capacity ar new_capacity in
        new_buff <- call_alloc (mem_alloc ar1) (size_mul new_capacity sizeof_ptr) ;;
        match new_buff with
        | None => ret (ar1, false)
        | Some _ =>
            new_buff' <- memcpy new_buff 0 (buffer ar1) 0
                                (size_mul (size ar1) sizeof_ptr) ;;
            _ <- call_free (mem_free ar1) (buffer ar1) ;;
            ret (set_buffer ar1 new_buff', true)
        end
    end.

(** [array_new_conf]. [None] is the null result. The quotient
    [MAX_ELEMENTS / conf->capacity] is an integer division, undefined for a
    zero capacity, and is only evaluated when the factor exceeds 1. The
    buffer returned by [mem_calloc] is stored without a null check. *)
Definition array_new_conf (conf : ArrayConf) : M (option Array) :=
  ok <- call_alloc_struct (conf_mem_calloc conf) ;;
  if negb ok then ret None
  else
    let finish (ar : Array) : M (option Array) :=
      let ar := set_capacity ar (conf_capacity conf) in
      let ar := set_allocators ar (conf_mem_alloc conf) (conf_mem_calloc conf)
                               (conf_mem_free conf) in
      buf <- call_calloc (mem_calloc ar) (capacity ar) ;;
      ret (Some (set_buffer ar buf)) in
    if float_le (conf_exp_factor conf) (float_of_Z 1)
    then finish (set_exp_factor zeroed_Array (float_of_Z DEFAULT_EXPANSION_FACTOR))
    else if conf_capacity conf =? 0 then undefined
    else if float_le (float_of_Z (MAX_ELEMENTS / conf_capacity conf)) (conf_exp_factor conf)
    then ret None
    else finish (set_exp_factor zeroed_Array (conf_exp_factor conf)).

(** [array_new] *)
Definition array_new : M (option Array) := array_new_conf array_conf_init.

(** [array_add] *)
Definition array_add (ar : Array) (element : ptr) : M (Array * bool) :=
  r <- (if capacity ar <=? size ar then expand_capacity ar else ret (ar, true)) ;;
  let '(ar1, ok) := r in
  if negb ok then ret (ar1, false)
  else
    buf <- store (buffer ar1) (size ar1) element ;;
    ret (set_size (set_buffer ar1 buf) (size_add (size ar1) 1), true).

(** [array_add_at] *)
Definition array_add_at (ar : Array) (element : ptr) (index : Z) : M (Array * bool) :=
  if size_sub (size ar) 1 <? index then ret (ar, false)
  else
    r <- (if size ar =? capacity ar then expand_capacity ar else ret (ar, true)) ;;
    let '(ar1, ok) := r in
    if negb ok then ret (ar1, false)
    else
      let shift := size_mul (size_sub (size ar1) index) sizeof_ptr in
      buf <- memmove (buffer ar1) (size_add index 1) (buffer ar1) index shift ;;
      buf' <- store buf index element ;;
      ret (set_size (set_buffer ar1 buf') (size_add (size ar1) 1), true).

(** [array_iter_add]. The argument [iter->index++] is evaluated before the
    call: the insertion uses the old index and the cursor keeps the new one
    whatever the call returns. *)
Definition array_iter_add (iter : ArrayIter) (element : ptr) : M (ArrayIter * bool) :=
  let index := iter_index iter in
  let index' := size_add (iter_index iter) 1 in
  r <- array_add_at (iter_ar iter) element index ;;
  let '(ar1, ok) := r in
  ret (mkArrayIter ar1 index', ok).

(** A run of [array_add] calls, one per handle of [es] in order, that stops
    at the first call that reports failure; the flag tells whether every
    call reported success. *)
Fixpoint array_add_all (ar : Array) (es : list ptr) : M (Array * bool) :=
  match es with
  | [] => ret (ar, true)
  | e :: es' =>
      r <- array_add ar e ;;
      let '(ar1, ok) := r in
      if ok then array_add_all ar1 es' else ret (ar1, false)
  end.

End Ceiling.

(** The arrays used to run the operations on concrete inputs are built with
    this ceiling, the largest [size_t] value but one. Every theorem that is
    stated for an arbitrary ceiling holds for the ceiling of the header. *)
Definition sample_ceiling : Z := SIZE_MAX - 1.

(** The live handles of an array, [buffer[0 .. size-1]], when the block
    holds that many slots. *)
Definition live_slots (ar : Array) : option (list slot) :=
  match buffer ar with
  | None => None
  | Some l => if Z.of_nat (length l) <? size ar then None
              else Some (take (Z.to_nat (size ar)) l)
  end.

(** An array of the given handles with default configuration: [array_new]
    followed by one [array_add] per handle, every request being served. *)
Definition array_of (es : list ptr) : outcome (Array * bool) :=
  match array_new sample_ceiling [] with
  | Done (Some ar) w => array_add_all sample_ceiling ar es w
  | _ => Undefined
  end.

(** The array that [array_new] and successful [array_add] calls produce as
    long as no growth is needed: default capacity and factor, the libc
    allocators, the given live handles followed by null slots. *)
Definition default_array (es : list ptr) : Array :=
  mkArray (Z.of_nat (length es)) DEFAULT_CAPACITY (float_of_Z DEFAULT_EXPANSION_FACTOR)
          (Some ((Val <$> es) ++ replicate (8 - length es) (Val NULL)))
          libc_malloc libc_calloc libc_free.

(** The array has room for one more element without growing. *)
Definition has_room (ar : Array) : Prop :=
  size ar < capacity ar /\
  match buffer ar with
  | Some l => capacity ar <= Z.of_nat (length l)
  | None => False
  end.

(** The handles [es] are the live elements of [ar], in order: [size] counts
    them and they fill the first slots of the buffer. A block never holds
    more slots than one allocator request can ask for. *)
Definition holds (ar : Array) (es : list ptr) : Prop :=
  size ar = Z.of_nat (length es) /\
  match buffer ar with
  | Some l => take (length es) l = Val <$> es /\ Z.of_nat (length l) * sizeof_ptr <= SIZE_MAX
  | None => es = []
  end.

(** ** Further operations of [array.c] *)

(** [array_replace_at] *)
Definition array_replace_at (ar : Array) (element : ptr) (index : Z) : M (Array * ptr) :=
  if size ar <=? index then ret (ar, NULL)
  else
    old_e <- load (buffer ar) index ;;
    buf <- store (buffer ar) index element ;;
    ret (set_buffer ar buf, old_e).

(** The loop of [array_contains]: [n] iterations remain, [i] is the loop
    index and [o] the number of occurrences counted so far. *)
Fixpoint contains_loop (element : ptr) (buf : bufptr) (n : nat) (i o : Z) : M Z :=
  match n with
  | O => ret o
  | S n' =>
      x <- load buf i ;;
      contains_loop element buf n' (size_add i 1)
                    (if element =? x then size_add o 1 else o)
  end.

(** [array_contains] *)
Definition array_contains (ar : Array) (element : ptr) : M Z :=
  contains_loop element (buffer ar) (Z.to_nat (size ar)) 0 0.

(** The loop of [array_foreach]: the callback [op] acts on a state of the
    caller, which the loop threads through its calls. *)
Fixpoint foreach_loop {St : Type} (op : ptr -> St -> St) (buf : bufptr) (n : nat) (i : Z)
    (s : St) : M St :=
  match n with
  | O => ret s
  | S n' =>
      x <- load buf i ;;
      foreach_loop op buf n' (size_add i 1) (op x s)
  end.

(** [array_foreach] *)
Definition array_foreach {St : Type} (ar : Array) (op : ptr -> St -> St) (s : St) : M St :=
  foreach_loop op (buffer ar) (Z.to_nat (size ar)) 0 s.

(** [array_iter_remove]. The index of the cursor is not changed. *)
Definition array_iter_remove (iter : ArrayIter) : M (ArrayIter * ptr) :=
  r <- array_remove_at (iter_ar iter) (size_sub (iter_index iter) 1) ;;
  let '(ar1, e) := r in
  ret (mkArrayIter ar1 (iter_index iter), e).

(** [array_iter_replace] *)
Definition array_iter_replace (iter : ArrayIter) (element : ptr) : M (ArrayIter * ptr) :=
  r <- array_replace_at (iter_ar iter) element (iter_index iter) ;;
  let '(ar1, e) := r in
  ret (mkArrayIter ar1 (iter_index iter), e).

(** The traversal loop of a caller,
    [while (array_iter_has_next(&it)) e = array_iter_next(&it);],
    collecting the handles it is given; [fuel] bounds the number of
    iterations. *)
Fixpoint array_iter_drain (fuel : nat) (iter : ArrayIter) : M (list ptr) :=
  match fuel with
  | O => ret []
  | S fuel' =>
      if array_iter_has_next iter then
        r <- array_iter_next iter ;;
        let '(iter1, e) := r in
        rest <- array_iter_drain fuel' iter1 ;;
        ret (e :: rest)
      else ret []
  end.

(** [NO_SUCH_INDEX] is defined in a header of the library; the operations
    that return or test it take it as a parameter, a value of type
    [size_t]. *)

Section Sentinel.

Variable NO_SUCH_INDEX : Z.

(** The loop of [array_index_of]: [n] iterations remain, [i] is the loop
    index. *)
Fixpoint index_of_loop (element : ptr) (buf : bufptr) (n : nat) (i : Z) : M Z :=
  match n with
  | O => ret NO_SUCH_INDEX
  | S n' =>
      x <- load buf i ;;
      if x =? element then ret i
      else index_of_loop element buf n' (size_add i 1)
  end.

(** [array_index_of] *)
Definition array_index_of (ar : Array) (element : ptr) : M Z :=
  index_of_loop element (buffer ar) (Z.to_nat (size ar)) 0.

(** [array_remove] *)
Definition array_remove (ar : Array) (element : ptr) : M (Array * ptr) :=
  index <- array_index_of ar element ;;
  if index =? NO_SUCH_INDEX then ret (ar, NULL)
  else
    buf <- (if negb (index =? size_sub (size ar) 1)
            then
              let block_size := size_mul (size_sub (size ar) index) sizeof_ptr in
              memmove (buffer ar) index (buffer ar) (size_add index 1) block_size
            else ret (buffer ar)) ;;
    ret (set_size (set_buffer ar buf) (size_sub (size ar) 1), element).

End Sentinel.

(** The buffer has a slot behind the last element. *)
Definition has_spare_slot (ar : Array) : Prop :=
  match buffer ar with
  | Some l => size ar < Z.of_nat (length l)
  | None => False
  end.

(** The buffer holds at least as many slots as the capacity promises, and
    the size does not exceed the capacity. *)
Definition within_capacity (ar : Array) : Prop :=
  size ar <= capacity ar /\
  match buffer ar with
  | Some l => capacity ar <= Z.of_nat (length l)
  | None => False
  end.

(** The slots [i], [i + 1], ... of a block hold the handles [es2]. *)
Definition slots_from (l : list slot) (i : nat) (es2 : list ptr) : Prop :=
  forall k x, es2 !! k = Some x -> l !! (i + k)%nat = Some (Val x).

(** A configuration that [array_new_conf] accepts for every ceiling above
    1.5: capacity 1 and growth factor 1.5, with the libc allocators. *)
Definition float_one_and_half : float := binary_normalize 24 128 3 (-1) false.

Definition small_conf : ArrayConf :=
  mkArrayConf float_one_and_half 1 libc_malloc libc_calloc libc_free.

(** The array that [array_new_conf small_conf] and one successful
    [array_add] produce. *)
Definition small_array (A : ptr) : Array :=
  mkArray 1 1 float_one_and_half (Some [Val A]) libc_malloc libc_calloc libc_free.

(** * Properties *)

(** ** Machine arithmetic *)

Lemma wrap_small z : 0 <= z <= SIZE_MAX -> wrap z = z.
Proof. unfold wrap, SIZE_MAX. intros. apply Z.mod_small. lia. Qed.

Lemma wrap_range z : 0 <= wrap z <= SIZE_MAX.
Proof.
  unfold wrap, SIZE_MAX.
  pose proof (Z.mod_pos_bound z (2 ^ 64) ltac:(lia)). lia.
Qed.

Lemma size_mul_slots n :
  0 <= n -> n * sizeof_ptr <= SIZE_MAX -> size_mul n sizeof_ptr / sizeof_ptr = n.
Proof.
  intros Hn Hb. unfold size_mul. rewrite wrap_small by (unfold sizeof_ptr in *; lia).
  unfold sizeof_ptr. apply Z.div_mul. lia.
Qed.

Lemma size_mul_slots_le z : size_mul z sizeof_ptr / sizeof_ptr * sizeof_ptr <= SIZE_MAX.
Proof.
  unfold size_mul. pose proof (wrap_range (z * sizeof_ptr)) as Hr.
  unfold sizeof_ptr in *.
  pose proof (Z.mul_div_le (wrap (z * 8)) 8 ltac:(lia)). lia.
Qed.

(** ** The monad *)

Lemma bind_Done {A B} (m : M A) (k : A -> M B) w b w' :
  bind m k w = Done b w' ->
  exists a w1, m w = Done a w1 /\ k a w1 = Done b w'.
Proof.
  unfold bind. destruct (m w) as [|a w1]; [discriminate|]. eauto.
Qed.

Lemma ret_Done {A} (a b : A) w w' : ret a w = Done b w' -> a = b /\ w = w'.
Proof. unfold ret. intros [= -> ->]. done. Qed.

Ltac inv_bind H :=
  let a := fresh "a" in
  let w := fresh "w" in
  let H1 := fresh H "a" in
  apply bind_Done in H; destruct H as (a & w & H1 & H).

Ltac inv_ret H :=
  apply ret_Done in H; destruct H as [H ?]; subst.

(** ** Memory primitives *)

Lemma store_Done b i v w b' w' :
  store b i v w = Done b' w' ->
  exists l, b = Some l /\ 0 <= i < Z.of_nat (length l) /\
            b' = Some (<[Z.to_nat i := Val v]> l) /\ w' = w.
Proof.
  unfold store. destruct b as [l|]; [|discriminate].
  destruct (0 <=? i) eqn:H0; [|discriminate].
  destruct (i <? Z.of_nat (length l)) eqn:H1; [|discriminate].
  simpl. intros H. inv_ret H. exists l. repeat split; lia.
Qed.

Lemma memmove_Done d doff s soff bytes w b' w' :
  memmove d doff s soff bytes w = Done b' w' ->
  exists dl sl, d = Some dl /\ s = Some sl /\
    0 <= doff /\ 0 <= soff /\ 0 <= bytes / sizeof_ptr /\
    soff + bytes / sizeof_ptr <= Z.of_nat (length sl) /\
    doff + bytes / sizeof_ptr <= Z.of_nat (length dl) /\
    b' = Some (blit dl doff sl soff (bytes / sizeof_ptr)) /\ w' = w.
Proof.
  unfold memmove. destruct d as [dl|]; [|discriminate].
  destruct s as [sl|]; [|discriminate]. cbv zeta.
  destruct (_ && _) eqn:Hc; [|discriminate].
  intros H. inv_ret H.
  repeat (apply andb_prop in Hc; destruct Hc as [Hc ?]).
  exists dl, sl. repeat split; lia.
Qed.

Lemma store_ok l i v w :
  0 <= i < Z.of_nat (length l) ->
  store (Some l) i v w = Done (Some (<[Z.to_nat i := Val v]> l)) w.
Proof.
  intros Hi. unfold store.
  replace (0 <=? i) with true by lia.
  replace (i <? Z.of_nat (length l)) with true by lia. reflexivity.
Qed.

Lemma memmove_ok d doff s soff bytes w :
  0 <= doff -> 0 <= soff -> 0 <= bytes / sizeof_ptr ->
  soff + bytes / sizeof_ptr <= Z.of_nat (length s) ->
  doff + bytes / sizeof_ptr <= Z.of_nat (length d) ->
  memmove (Some d) doff (Some s) soff bytes w
  = Done (Some (blit d doff s soff (bytes / sizeof_ptr))) w.
Proof.
  intros. unfold memmove. cbv zeta.
  replace (0 <=? doff) with true by lia.
  replace (0 <=? soff) with true by lia.
  replace (0 <=? bytes / sizeof_ptr) with true by lia.
  replace (soff + bytes / sizeof_ptr <=? Z.of_nat (length s)) with true by lia.
  replace (doff + bytes / sizeof_ptr <=? Z.of_nat (length d)) with true by lia.
  reflexivity.
Qed.

Lemma memmove_dst_short d doff s soff bytes w :
  Z.of_nat (length d) < doff + bytes / sizeof_ptr ->
  memmove (Some d) doff s soff bytes w = Undefined.
Proof.
  intros Hd. unfold memmove. destruct s as [sl|]; [|reflexivity]. cbv zeta.
  replace (doff + bytes / sizeof_ptr <=? Z.of_nat (length d)) with false by lia.
  rewrite andb_false_r. reflexivity.
Qed.

Lemma load_Val l i p w : 0 <= i -> l !! Z.to_nat i = Some (Val p) -> load (Some l) i w = Done p w.
Proof.
  intros Hi Hl. unfold load. destruct (0 <=? i) eqn:H0; [|lia]. by rewrite Hl.
Qed.

Lemma length_blit d doff s soff n :
  0 <= doff -> 0 <= soff -> 0 <= n ->
  soff + n <= Z.of_nat (length s) -> doff + n <= Z.of_nat (length d) ->
  length (blit d doff s soff n) = length d.
Proof.
  intros. unfold blit. rewrite !length_app, !length_take, !length_drop. lia.
Qed.

Lemma take_blit_prefix d s n :
  0 <= n -> n <= Z.of_nat (length s) ->
  take (Z.to_nat n) (blit d 0 s 0 n) = take (Z.to_nat n) s.
Proof.
  intros. unfold blit. simpl. rewrite drop_0.
  rewrite take_app_le by (rewrite length_take; lia).
  rewrite take_take. f_equal. lia.
Qed.

(** ** Appending *)

Section Appending.

Variable MAX_ELEMENTS : Z.

Lemma call_alloc_Done f bytes w b w' :
  call_alloc f bytes w = Done b w' ->
  b = None \/ b = Some (replicate (Z.to_nat (bytes / sizeof_ptr)) Indet).
Proof.
  unfold call_alloc. intros H. inv_bind H. inv_ret H. destruct a; auto.
Qed.

Lemma call_calloc_Done f blocks w b w' :
  call_calloc f blocks w = Done b w' ->
  b = None \/
  (blocks * sizeof_ptr <= SIZE_MAX /\ b = Some (replicate (Z.to_nat blocks) (Val NULL))).
Proof.
  unfold call_calloc. intros H. inv_bind H. inv_ret H.
  destruct a; simpl; auto.
  destruct (_ <=? _) eqn:Hle; auto. right. split; [lia|done].
Qed.

(** A fresh array holds no element. *)
Lemma array_new_conf_holds conf w ar w' :
  array_new_conf MAX_ELEMENTS conf w = Done (Some ar) w' -> holds ar [].
Proof.
  unfold array_new_conf. intros H. inv_bind H.
  destruct a; simpl in H; [|by inv_ret H].
  assert (Hfin : forall ar0 wx,
    size ar0 = 0 ->
    (buf <- call_calloc (mem_calloc (set_allocators (set_capacity ar0 (conf_capacity conf))
             (conf_mem_alloc conf) (conf_mem_calloc conf) (conf_mem_free conf)))
           (capacity (set_allocators (set_capacity ar0 (conf_capacity conf))
             (conf_mem_alloc conf) (conf_mem_calloc conf) (conf_mem_free conf))) ;;
     ret (Some (set_buffer (set_allocators (set_capacity ar0 (conf_capacity conf))
             (conf_mem_alloc conf) (conf_mem_calloc conf) (conf_mem_free conf)) buf))) wx
    = Done (Some ar) w' -> holds ar []).
  { intros ar0 wx Hsz Hf. inv_bind Hf. inv_ret Hf.
    injection Hf as <-. split; [done|]. simpl.
    apply call_calloc_Done in Hfa as [->|[Hle ->]]; [done|].
    split; [done|]. rewrite length_replicate.
    simpl in *. unfold sizeof_ptr, SIZE_MAX in *. lia. }
  destruct (float_le _ _); [by eapply Hfin; [|exact H]|].
  destruct (_ =? _); [discriminate|].
  destruct (float_le _ _); [by inv_ret H|].
  by eapply Hfin; [|exact H].
Qed.

(** A growth step that reports success keeps the elements. *)
Lemma expand_capacity_holds ar es w ar' w' :
  holds ar es ->
  expand_capacity MAX_ELEMENTS ar w = Done (ar', true) w' ->
  holds ar' es.
Proof.
  intros [Hsz Hbuf] H. unfold expand_capacity in H.
  destruct (_ =? _); [by inv_ret H|].
  destruct (size_of_float _) as [nc|]; [|discriminate].
  cbv zeta in H. inv_bind H.
  set (ar1 := if nc <=? capacity ar then _ else _) in *.
  assert (Hb1 : buffer ar1 = buffer ar) by (subst ar1; by destruct (_ <=? _)).
  assert (Hs1 : size ar1 = size ar) by (subst ar1; by destruct (_ <=? _)).
  destruct a as [nb|]; [|by inv_ret H].
  inv_bind H. inv_bind H. inv_ret H. injection H as <-.
  split; [simpl; congruence|]. simpl.
  apply call_alloc_Done in Ha as [?|Hnb]; [done|]. injection Hnb as ->.
  apply memmove_Done in Ha0 as (dl & sl & [= <-] & Hsl & _ & _ & Hn & Hs & Hd & -> & _).
  rewrite Hb1 in Hsl. rewrite Hsl in Hbuf. destruct Hbuf as [Htake Hlen].
  rewrite Hs1, Hsz in *.
  assert (Hes : Z.of_nat (length es) <= Z.of_nat (length sl)).
  { apply (f_equal length) in Htake. rewrite length_take, length_fmap in Htake. lia. }
  assert (Hm : size_mul (Z.of_nat (length es)) sizeof_ptr / sizeof_ptr
               = Z.of_nat (length es))
    by (apply size_mul_slots; unfold sizeof_ptr in *; lia).
  rewrite Hm in *.
  split.
  - rewrite <- Htake. rewrite <- (Nat2Z.id (length es)) at 1 3.
    apply take_blit_prefix; lia.
  - rewrite length_blit by lia. rewrite length_replicate.
    pose proof (size_mul_slots_le nc) as Hle.
    rewrite Z2Nat.id; [done|]. apply Z.div_pos; [|done].
    unfold size_mul. apply wrap_range.
Qed.

(** One successful [array_add] appends its handle to the elements. *)
Lemma array_add_holds ar es e w ar' w' :
  holds ar es ->
  array_add MAX_ELEMENTS ar e w = Done (ar', true) w' ->
  holds ar' (es ++ [e]).
Proof.
  intros Hh H. unfold array_add in H. inv_bind H.
  destruct a as [ar1 ok].
  assert (Hh1 : ok = true -> holds ar1 es).
  { intros ->. destruct (_ <=? _).
    - eapply expand_capacity_holds; eauto.
    - by inv_ret Ha; injection Ha as <-. }
  destruct ok; simpl in H; [|by inv_ret H].
  destruct (Hh1 eq_refl) as [Hsz Hbuf]. clear Hh1 Ha.
  inv_bind H. inv_ret H. injection H as <-.
  apply store_Done in Ha as (l & Hl & Hi & -> & _).
  rewrite Hl in Hbuf. destruct Hbuf as [Htake Hlen].
  assert (Hwrap : size_add (size ar1) 1 = Z.of_nat (length (es ++ [e]))).
  { unfold size_add. rewrite wrap_small; [rewrite length_app; simpl; lia|].
    unfold sizeof_ptr in *. lia. }
  split; [done|]. simpl. rewrite length_insert. split; [|done].
  rewrite Hsz, Nat2Z.id in *. rewrite length_app. simpl.
  replace (length es + 1)%nat with (S (length es)) by lia.
  erewrite take_S_r by (apply list_lookup_insert_eq; lia).
  rewrite take_insert_ge by lia. rewrite Htake. by rewrite fmap_app.
Qed.

Lemma array_add_all_holds es : forall ar es0 w ar' w',
  holds ar es0 ->
  array_add_all MAX_ELEMENTS ar es w = Done (ar', true) w' ->
  holds ar' (es0 ++ es).
Proof.
  induction es as [|e es IH]; intros ar es0 w ar' w' Hh H; simpl in H.
  - inv_ret H. injection H as <-. by rewrite app_nil_r.
  - inv_bind H. destruct a as [ar1 ok]. destruct ok; [|by inv_ret H].
    replace (es0 ++ e :: es) with ((es0 ++ [e]) ++ es) by (by rewrite <- app_assoc).
    eapply IH; [|exact H]. eapply array_add_holds; eauto.
Qed.

(** Reading back a held element. *)
Lemma array_get_holds ar es i e w :
  holds ar es -> es !! i = Some e -> array_get ar (Z.of_nat i) w = Done e w.
Proof.
  intros [Hsz Hbuf] He. pose proof (lookup_lt_Some _ _ _ He) as Hlt.
  unfold array_get. destruct (_ <=? _) eqn:Hc; [lia|].
  destruct (buffer ar) as [l|]; [|by subst es].
  destruct Hbuf as [Htake _]. apply load_Val; [lia|].
  rewrite Nat2Z.id. rewrite <- (lookup_take_lt l (length es)) by done.
  rewrite Htake, list_lookup_fmap, He. done.
Qed.

(** Within defined behaviour: after any run of [array_add] calls on a
    freshly constructed array in which every call reported success, the
    size is the number of calls and [array_get] at [i] returns the handle
    passed to the [i]-th call, for every [i] below that number. Runs in
    which a call writes outside its buffer are not covered; the section on
    growth without new slots shows that they exist. *)
Theorem array_add_sequence conf w0 ar0 w1 es ar w2 :
  array_new_conf MAX_ELEMENTS conf w0 = Done (Some ar0) w1 ->
  array_add_all MAX_ELEMENTS ar0 es w1 = Done (ar, true) w2 ->
  array_size ar = Z.of_nat (length es) /\
  forall i e w, es !! i = Some e -> array_get ar (Z.of_nat i) w = Done e w.
Proof.
  intros Hnew Hadd.
  assert (Hh : holds ar es).
  { apply array_new_conf_holds in Hnew.
    apply (array_add_all_holds es ar0 [] w1 ar w2 Hnew Hadd). }
  split; [apply Hh|]. intros i e w He. by eapply array_get_holds.
Qed.

End Appending.

(** ** The sample arrays are the ones the library builds *)

Lemma array_of_default es :
  (length es <= 8)%nat -> array_of es = Done (default_array es, true) [].
Proof.
  intros Hlen.
  do 9 (destruct es as [|? es]; [vm_compute; reflexivity|]).
  simpl in Hlen. lia.
Qed.

(** ** Removal at the end *)

(** C8. On an empty array [array_remove_last] returns [NULL] and leaves the
    array as it was: the index [size - 1] wraps to the largest [size_t]
    value, which the bounds check of [array_remove_at] rejects. *)
Theorem array_remove_last_empty ar w :
  size ar = 0 ->
  size_sub (size ar) 1 = SIZE_MAX /\
  array_remove_last ar w = Done (ar, NULL) w.
Proof.
  intros Hsz. unfold array_remove_last, array_remove_at. rewrite Hsz.
  split; reflexivity.
Qed.

Lemma array_remove_last_empty_witness :
  size (default_array []) = 0 /\
  size_sub (size (default_array [])) 1 = SIZE_MAX /\
  array_remove_last (default_array []) [] = Done (default_array [], NULL) [].
Proof. split; [reflexivity | apply array_remove_last_empty; reflexivity]. Defined.

(** ** The cursor *)

Section Cursor.

Variable MAX_ELEMENTS : Z.

(** A positional insert into an array that has a free slot and needs no
    growth: the slots from [index] on move one place up and the handle
    lands at [index]. *)
Lemma array_add_at_room ar l element index w :
  buffer ar = Some l ->
  size ar <> capacity ar ->
  0 <= index < size ar ->
  size ar < Z.of_nat (length l) ->
  size ar * sizeof_ptr <= SIZE_MAX ->
  array_add_at MAX_ELEMENTS ar element index w
  = Done (set_size
            (set_buffer ar
               (Some (<[Z.to_nat index := Val element]>
                        (blit l (index + 1) l index (size ar - index)))))
            (size ar + 1), true) w.
Proof.
  intros Hbuf Hne Hidx Hlen Hmax. unfold sizeof_ptr, SIZE_MAX in Hmax.
  assert (Hsub : size_sub (size ar) 1 = size ar - 1)
    by (unfold size_sub; apply wrap_small; unfold SIZE_MAX; lia).
  assert (Hadd : size_add index 1 = index + 1)
    by (unfold size_add; apply wrap_small; unfold SIZE_MAX; lia).
  assert (Hadd' : size_add (size ar) 1 = size ar + 1)
    by (unfold size_add; apply wrap_small; unfold SIZE_MAX; lia).
  assert (Hshift : size_mul (size_sub (size ar) index) sizeof_ptr / sizeof_ptr
                   = size ar - index).
  { unfold size_sub. rewrite wrap_small by (unfold SIZE_MAX; lia).
    apply size_mul_slots; unfold sizeof_ptr, SIZE_MAX; lia. }
  unfold array_add_at, bind. rewrite Hsub.
  replace (size ar - 1 <? index) with false by lia.
  replace (size ar =? capacity ar) with false by lia.
  unfold ret at 1. cbn [negb]. rewrite Hbuf, Hadd, Hadd'.
  rewrite memmove_ok by (rewrite ?Hshift; lia).
  rewrite store_ok by (rewrite length_blit by (rewrite ?Hshift; lia); lia).
  rewrite Hshift. reflexivity.
Qed.

(** C9. Over an array whose elements are [A, B, C] and that has room for
    one more: the first [array_iter_next] returns [A]; [array_iter_add X]
    then reports success; the next [array_iter_next] returns [B], not the
    inserted [X]; the array ends with size 4 and elements [A, X, B, C]. *)
Theorem array_iter_add_scenario (A B C X : ptr) ar w :
  size ar = 3 ->
  live_slots ar = Some [Val A; Val B; Val C] ->
  has_room ar ->
  exists it1 it2 it3,
    array_iter_next (array_iter_init ar) w = Done (it1, A) w /\
    array_iter_add MAX_ELEMENTS it1 X w = Done (it2, true) w /\
    array_iter_next it2 w = Done (it3, B) w /\
    size (iter_ar it3) = 4 /\
    live_slots (iter_ar it3) = Some [Val A; Val X; Val B; Val C].
Proof.
  intros Hsz Hlive [Hlt Hcap].
  destruct ar as [sz cap f buf ma mc mf]. simpl in *. subst sz.
  unfold live_slots in Hlive. simpl in Hlive.
  destruct buf as [l|]; [|done].
  destruct (_ <? _) eqn:Hlen; [done|]. injection Hlive as Hl.
  destruct l as [|s0 [|s1 [|s2 [|s3 l]]]]; simpl in Hcap; try lia.
  simpl in Hl. injection Hl as -> -> ->.
  set (ar3 := mkArray 3 cap f (Some (Val A :: Val B :: Val C :: s3 :: l)) ma mc mf).
  set (ar4 := mkArray 4 cap f (Some (Val A :: Val X :: Val B :: Val C :: l)) ma mc mf).
  exists (mkArrayIter ar3 1), (mkArrayIter ar4 2), (mkArrayIter ar4 3).
  split; [reflexivity|].
  split.
  { unfold array_iter_add, bind. cbn [iter_ar iter_index].
    rewrite (array_add_at_room ar3 (Val A :: Val B :: Val C :: s3 :: l));
      [reflexivity | reflexivity | simpl; lia | simpl; lia | simpl length; simpl size; lia | done]. }
  split; [reflexivity|]. split; [reflexivity|].
  unfold live_slots. cbn [iter_ar ar4 buffer size].
  destruct (Z.ltb_spec (Z.of_nat (length (Val A :: Val X :: Val B :: Val C :: l))) 4)
    as [Hl4|_]; [simpl length in Hl4; lia | reflexivity].
Qed.

(** C10. Once the cursor of a non-empty array has yielded every element
    (its index equals the size), [array_iter_add] reports failure, because
    [array_add_at] rejects an index equal to the size, and leaves the array
    as it was; the index of the cursor has nevertheless moved on by one
    (in [size_t] arithmetic, so it differs from the old index; it is the old
    index plus one unless the size is the largest [size_t] value). *)
Theorem array_iter_add_exhausted iter element w :
  0 < size (iter_ar iter) <= SIZE_MAX ->
  iter_index iter = size (iter_ar iter) ->
  array_iter_add MAX_ELEMENTS iter element w
    = Done (mkArrayIter (iter_ar iter) (size_add (iter_index iter) 1), false) w /\
  size_add (iter_index iter) 1 <> iter_index iter /\
  (size (iter_ar iter) < SIZE_MAX -> size_add (iter_index iter) 1 = iter_index iter + 1).
Proof.
  intros Hsz Hidx.
  assert (Hsub : size_sub (size (iter_ar iter)) 1 = size (iter_ar iter) - 1)
    by (unfold size_sub; apply wrap_small; lia).
  split; [|split].
  - unfold array_iter_add, array_add_at, bind. rewrite Hsub.
    replace (size (iter_ar iter) - 1 <? iter_index iter) with true by lia.
    reflexivity.
  - unfold size_add. rewrite Hidx.
    destruct (Z.eq_dec (size (iter_ar iter)) SIZE_MAX) as [->|Hne].
    + vm_compute. discriminate.
    + rewrite wrap_small by lia. lia.
  - intros Hlt. unfold size_add. apply wrap_small. lia.
Qed.

End Cursor.

(** The scenario also goes through when the insertion has to grow the
    array and the allocator serves the request: capacity 3 becomes 6. *)
Example array_iter_add_scenario_growth (A B C X : ptr) :
  let ar3 := mkArray 3 3 (float_of_Z 2) (Some [Val A; Val B; Val C])
                     libc_malloc libc_calloc libc_free in
  let ar4 := mkArray 4 6 (float_of_Z 2)
                     (Some [Val A; Val X; Val B; Val C; Indet; Indet])
                     libc_malloc libc_calloc libc_free in
  array_iter_next (array_iter_init ar3) [] = Done (mkArrayIter ar3 1, A) [] /\
  array_iter_add sample_ceiling (mkArrayIter ar3 1) X [] = Done (mkArrayIter ar4 2, true) [] /\
  array_iter_next (mkArrayIter ar4 2) [] = Done (mkArrayIter ar4 3, B) [].
Proof. repeat split; vm_compute; reflexivity. Qed.

Lemma array_iter_add_scenario_witness :
  (size (default_array [10; 20; 30]) = 3 /\
   live_slots (default_array [10; 20; 30]) = Some [Val 10; Val 20; Val 30] /\
   has_room (default_array [10; 20; 30])) /\
  exists it1 it2 it3,
    array_iter_next (array_iter_init (default_array [10; 20; 30])) [] = Done (it1, 10) [] /\
    array_iter_add sample_ceiling it1 77 [] = Done (it2, true) [] /\
    array_iter_next it2 [] = Done (it3, 20) [] /\
    size (iter_ar it3) = 4 /\
    live_slots (iter_ar it3) = Some [Val 10; Val 77; Val 20; Val 30].
Proof.
  assert (Hroom : has_room (default_array [10; 20; 30]))
    by (split; vm_compute; [reflexivity | discriminate]).
  split; [repeat split; apply Hroom|].
  apply (array_iter_add_scenario sample_ceiling 10 20 30 77
           (default_array [10; 20; 30]) [] eq_refl eq_refl Hroom).
Defined.

Lemma array_iter_add_exhausted_witness :
  (0 < size (default_array [10; 20; 30]) <= SIZE_MAX /\
   3 = size (default_array [10; 20; 30])) /\
  array_iter_add sample_ceiling (mkArrayIter (default_array [10; 20; 30]) 3) 77 []
  = Done (mkArrayIter (default_array [10; 20; 30]) 4, false) [].
Proof.
  assert (Hsz : 0 < size (default_array [10; 20; 30]) <= SIZE_MAX)
    by (split; vm_compute; [reflexivity | discriminate]).
  split; [split; [exact Hsz | reflexivity]|].
  apply (array_iter_add_exhausted sample_ceiling
           (mkArrayIter (default_array [10; 20; 30]) 3) 77 [] Hsz eq_refl).
Defined.

Lemma array_add_sequence_witness :
  (array_new_conf sample_ceiling array_conf_init [] = Done (Some (default_array [])) [] /\
   exists ar,
     array_add_all sample_ceiling (default_array []) [1; 2; 3; 4; 5; 6; 7; 8; 9] []
     = Done (ar, true) [] /\
     array_size ar = 9 /\
     forall i e w, [1; 2; 3; 4; 5; 6; 7; 8; 9] !! i = Some e ->
                   array_get ar (Z.of_nat i) w = Done e w).
Proof.
  split; [vm_compute; reflexivity|].
  eexists. split; [vm_compute; reflexivity|].
  eapply (array_add_sequence sample_ceiling array_conf_init []
            (default_array []) [] [1; 2; 3; 4; 5; 6; 7; 8; 9]);
    vm_compute; reflexivity.
Defined.

(** ** Growth without new slots *)

Lemma store_out_of_range l i v w :
  Z.of_nat (length l) <= i -> store (Some l) i v w = Undefined.
Proof.
  intros Hi. unfold store.
  replace (i <? Z.of_nat (length l)) with false by lia.
  by rewrite andb_false_r.
Qed.

(** The slots of a request of [nc] slots never outnumber [nc]. *)
Lemma size_mul_slots_le_arg nc :
  0 <= nc -> size_mul nc sizeof_ptr / sizeof_ptr <= nc.
Proof.
  intros Hnc. unfold size_mul, wrap, sizeof_ptr.
  apply Z.div_le_upper_bound; [lia|].
  pose proof (Z.mod_le (nc * 8) (2 ^ 64)). lia.
Qed.

Lemma size_of_float_nonneg x n : size_of_float x = Some n -> 0 <= n.
Proof.
  destruct x as [s| s | |s m e]; simpl; try discriminate.
  - by intros [= <-].
  - pose proof (proj2 (Z.shiftl_nonneg (Z.pos m) e) ltac:(lia)) as Hnn.
    destruct s.
    + destruct (_ =? _); [|discriminate]. by intros [= <-].
    + destruct (_ <=? _); [|discriminate]. intros [= <-]. lia.
Qed.

(** C1 fails on the code. When a full array has to grow and the product of
    capacity and factor, cut to an integer, does not exceed the capacity,
    [expand_capacity] sets the capacity to [MAX_ELEMENTS] but requests a
    buffer of that product, so no slot is gained: with the request served,
    [array_add] copies the elements and then stores the handle behind the
    new buffer. The run leaves defined behaviour, where the handles added
    so far are within the ceiling. *)
Theorem array_add_growth_without_slots MAX_ELEMENTS ar e nc w :
  capacity ar <= size ar ->
  capacity ar <> MAX_ELEMENTS ->
  size_of_float (float_mul (float_of_Z (capacity ar)) (exp_factor ar)) = Some nc ->
  nc <= capacity ar ->
  array_add MAX_ELEMENTS ar e (true :: w) = Undefined.
Proof.
  intros Hfull Hne Hnc Hclamp.
  pose proof (size_of_float_nonneg _ _ Hnc) as Hpos.
  pose proof (size_mul_slots_le_arg nc Hpos) as Hslots.
  assert (Hnb : 0 <= size_mul nc sizeof_ptr / sizeof_ptr)
    by (apply Z.div_pos; [apply wrap_range | done]).
  unfold array_add, bind.
  destruct (Z.leb_spec (capacity ar) (size ar)); [|lia].
  unfold expand_capacity.
  destruct (Z.eqb_spec (capacity ar) MAX_ELEMENTS); [done|].
  rewrite Hnc. cbv zeta.
  destruct (Z.leb_spec nc (capacity ar)); [|lia].
  unfold bind, call_alloc, bind, alloc_ok, ret. cbn [mem_alloc set_capacity].
  destruct (memcpy _ 0 _ 0 _ w) as [|b w1] eqn:Hcopy; [reflexivity|].
  apply memmove_Done in Hcopy
    as (dl & sl & [= <-] & _ & _ & _ & Hn & Hs & Hd & -> & _).
  unfold call_free, ret. cbn [negb buffer size set_buffer set_capacity].
  rewrite store_out_of_range; [reflexivity|].
  rewrite length_blit by (done || lia). rewrite length_replicate. lia.
Qed.

Lemma array_add_growth_without_slots_witness :
  (capacity (small_array 10) <= size (small_array 10) /\
   capacity (small_array 10) <> sample_ceiling /\
   size_of_float (float_mul (float_of_Z (capacity (small_array 10)))
                            (exp_factor (small_array 10))) = Some 1 /\
   1 <= capacity (small_array 10)) /\
  array_add sample_ceiling (small_array 10) 20 [true] = Undefined.
Proof.
  assert (Hfull : capacity (small_array 10) <= size (small_array 10))
    by (vm_compute; discriminate).
  assert (Hne : capacity (small_array 10) <> sample_ceiling) by (vm_compute; discriminate).
  assert (Hnc : size_of_float (float_mul (float_of_Z (capacity (small_array 10)))
                                         (exp_factor (small_array 10))) = Some 1)
    by (vm_compute; reflexivity).
  assert (Hclamp : 1 <= capacity (small_array 10)) by (vm_compute; discriminate).
  split; [by repeat split|].
  apply (array_add_growth_without_slots sample_ceiling (small_array 10) 20 1 []
           Hfull Hne Hnc Hclamp).
Defined.

(** The failing array is the one the library builds: [array_new_conf]
    accepts the configuration and the first [array_add] succeeds; the
    second one, well within the ceiling, is the call above, also when the
    allocator is never told to fail. *)
Example small_array_built (A B : ptr) :
  array_new_conf sample_ceiling small_conf []
  = Done (Some (mkArray 0 1 float_one_and_half (Some [Val NULL])
                        libc_malloc libc_calloc libc_free)) [] /\
  array_add sample_ceiling
    (mkArray 0 1 float_one_and_half (Some [Val NULL]) libc_malloc libc_calloc libc_free) A []
  = Done (small_array A, true) [] /\
  array_add sample_ceiling (small_array A) B [] = Undefined /\
  array_add_all sample_ceiling
    (mkArray 0 1 float_one_and_half (Some [Val NULL]) libc_malloc libc_calloc libc_free)
    [A; B] [] = Undefined.
Proof. repeat split; vm_compute; reflexivity. Qed.

(** The same happens with capacity 3 and factor 1.25: the fourth
    [array_add] computes the new capacity 3, requests 3 slots and writes
    the handle behind them. *)
Example array_add_truncated_growth :
  array_add sample_ceiling
    (mkArray 3 3 (binary_normalize 24 128 5 (-2) false) (Some [Val 1; Val 2; Val 3])
             libc_malloc libc_calloc libc_free) 4 []
  = Undefined.
Proof. vm_compute. reflexivity. Qed.

(** ** Growth that the allocator refuses *)

Section Growth.

Variable MAX_ELEMENTS : Z.

(** When the allocator refuses the new buffer, [expand_capacity] reports
    failure with the [capacity] field already overwritten. *)
Lemma expand_capacity_refused ar nc w :
  capacity ar <> MAX_ELEMENTS ->
  size_of_float (float_mul (float_of_Z (capacity ar)) (exp_factor ar)) = Some nc ->
  expand_capacity MAX_ELEMENTS ar (false :: w)
  = Done (set_capacity ar (if nc <=? capacity ar then MAX_ELEMENTS else nc), false) w.
Proof.
  intros Hne Hnc. unfold expand_capacity.
  replace (capacity ar =? MAX_ELEMENTS) with false by lia.
  rewrite Hnc. cbv zeta. destruct (nc <=? capacity ar); reflexivity.
Qed.

(** C2 fails on the code. An array with the default configuration that is
    full (8 elements in 8 slots) is asked to take a ninth handle while the
    allocator refuses the new buffer: [array_add] reports failure, size and
    elements are untouched, but the capacity now reads 16 although the
    buffer still has 8 slots. *)
Theorem array_add_refused_growth_changes_capacity w :
  MAX_ELEMENTS <> 8 ->
  array_add MAX_ELEMENTS (default_array [1; 2; 3; 4; 5; 6; 7; 8]) 9 (false :: w)
  = Done (set_capacity (default_array [1; 2; 3; 4; 5; 6; 7; 8]) 16, false) w.
Proof.
  intros Hne. unfold array_add, bind.
  change (capacity (default_array [1; 2; 3; 4; 5; 6; 7; 8])
          <=? size (default_array [1; 2; 3; 4; 5; 6; 7; 8])) with true.
  cbv iota.
  rewrite (expand_capacity_refused _ 16) by (vm_compute; congruence).
  reflexivity.
Qed.

End Growth.

Lemma array_add_refused_growth_changes_capacity_witness :
  sample_ceiling <> 8 /\
  array_add sample_ceiling (default_array [1; 2; 3; 4; 5; 6; 7; 8]) 9 [false]
  = Done (set_capacity (default_array [1; 2; 3; 4; 5; 6; 7; 8]) 16, false) [].
Proof.
  assert (Hne : sample_ceiling <> 8) by (vm_compute; discriminate).
  split; [exact Hne|].
  apply (array_add_refused_growth_changes_capacity sample_ceiling [] Hne).
Defined.

(** The array left behind by the refused growth is no longer usable: the
    next [array_add] trusts the capacity and writes past the 8 slots. *)
Example array_add_after_refused_growth :
  array_add sample_ceiling (set_capacity (default_array [1; 2; 3; 4; 5; 6; 7; 8]) 16) 9 []
  = Undefined.
Proof. vm_compute. reflexivity. Qed.

(** ** Positional insertion *)

(** C3 fails on the code. On an empty array the bounds check of
    [array_add_at] compares the index with [size - 1], which has wrapped to
    the largest [size_t] value, so no index is rejected: whenever the empty
    array has a slot (and needs no growth), index 0 is accepted and the
    handle is inserted. *)
Theorem array_add_at_empty_succeeds MAX_ELEMENTS ar s l (X : ptr) w :
  size ar = 0 ->
  capacity ar <> 0 ->
  buffer ar = Some (s :: l) ->
  array_add_at MAX_ELEMENTS ar X 0 w
  = Done (set_size (set_buffer ar (Some (Val X :: l))) 1, true) w.
Proof.
  intros Hsz Hcap Hbuf. unfold array_add_at, bind. rewrite Hsz.
  change (size_sub 0 1 <? 0) with false. cbv iota.
  replace (0 =? capacity ar) with false by lia.
  unfold ret at 1. cbn [negb]. rewrite Hbuf, Hsz.
  change (size_mul (size_sub 0 0) sizeof_ptr) with 0.
  change (size_add 0 1) with 1.
  rewrite memmove_ok by (simpl length; change (0 / sizeof_ptr) with 0; lia).
  change (0 / sizeof_ptr) with 0.
  rewrite store_ok; [reflexivity|].
  rewrite length_blit by (simpl length; lia). simpl length. lia.
Qed.

Lemma array_add_at_empty_succeeds_witness :
  (size (default_array []) = 0 /\ capacity (default_array []) <> 0) /\
  array_add_at sample_ceiling (default_array []) 77 0 []
  = Done (default_array [77], true) [].
Proof.
  assert (Hcap : capacity (default_array []) <> 0) by (vm_compute; discriminate).
  split; [split; [reflexivity | exact Hcap]|].
  apply (array_add_at_empty_succeeds sample_ceiling (default_array [])
           (Val NULL) (replicate 7 (Val NULL)) 77 [] eq_refl Hcap eq_refl).
Defined.

(** Every other index passes the same check on the empty array and sends
    [memmove] outside the block. *)
Example array_add_at_empty_index_1 MAX_ELEMENTS (X : ptr) w :
  array_add_at MAX_ELEMENTS (default_array []) X 1 w = Undefined.
Proof. reflexivity. Qed.

(** The other failure of [array_add_at], a refused growth, also changes the
    capacity (the defect of [expand_capacity] above). *)
Example array_add_at_refused_growth :
  array_add_at sample_ceiling (default_array [1; 2; 3; 4; 5; 6; 7; 8]) 9 0 [false]
  = Done (set_capacity (default_array [1; 2; 3; 4; 5; 6; 7; 8]) 16, false) [].
Proof. vm_compute. reflexivity. Qed.

(** An index past the last element of a non-empty array is rejected and
    nothing changes. *)
Lemma array_add_at_out_of_range MAX_ELEMENTS ar element index w :
  0 < size ar <= SIZE_MAX -> size ar <= index ->
  array_add_at MAX_ELEMENTS ar element index w = Done (ar, false) w.
Proof.
  intros Hsz Hidx. unfold array_add_at.
  assert (Hsub : size_sub (size ar) 1 = size ar - 1)
    by (unfold size_sub; apply wrap_small; lia).
  rewrite Hsub. replace (size ar - 1 <? index) with true by lia. reflexivity.
Qed.

(** ** Subrange extraction *)

(** C4 fails on the code. The range check of [array_subarray] rejects
    [e > size] only, so the end index [e = size], one past the last element,
    is accepted: whenever the buffer has a slot behind the last element and
    the allocator serves the two requests, the result is not null but an
    array of [size - b + 1] handles, the last of which is that dead slot. *)
Theorem array_subarray_end_at_size ar l b w :
  buffer ar = Some l ->
  0 <= b <= size ar ->
  size ar < Z.of_nat (length l) ->
  Z.of_nat (length l) * sizeof_ptr <= SIZE_MAX ->
  array_subarray ar b (size ar) (true :: true :: w)
  = Done (Some (mkArray (size ar - b + 1) (size ar - b + 1) float_zero
                        (Some (take (Z.to_nat (size ar - b + 1)) (drop (Z.to_nat b) l)))
                        (mem_alloc ar) (mem_calloc ar) (mem_free ar))) w.
Proof.
  intros Hbuf Hb Hlen Hmax. unfold sizeof_ptr, SIZE_MAX in Hmax.
  assert (Hn : size_add (size_sub (size ar) b) 1 = size ar - b + 1).
  { unfold size_add, size_sub. rewrite !wrap_small; unfold SIZE_MAX; try lia.
    rewrite wrap_small; unfold SIZE_MAX; lia. }
  assert (Hslots : size_mul (size ar - b + 1) sizeof_ptr / sizeof_ptr = size ar - b + 1)
    by (apply size_mul_slots; unfold sizeof_ptr, SIZE_MAX; lia).
  unfold array_subarray, bind.
  replace ((size ar <? b) || (size ar <? size ar)) with false
    by (symmetry; apply orb_false_iff; split; lia).
  cbn [call_alloc_struct alloc_ok negb].
  cbn [set_allocators set_size set_capacity set_buffer zeroed_Array
       size capacity exp_factor buffer mem_alloc mem_calloc mem_free].
  rewrite Hn. unfold call_alloc, bind. cbn [alloc_ok ret]. rewrite Hslots, Hbuf.
  unfold memcpy.
  rewrite memmove_ok by (rewrite ?length_replicate, ?Hslots; lia).
  rewrite Hslots. unfold blit. cbn [take Z.to_nat app].
  rewrite drop_replicate, Z.add_0_l, Nat.sub_diag. cbn [replicate].
  rewrite app_nil_r. reflexivity.
Qed.

Lemma array_subarray_end_at_size_witness :
  (0 <= 0 <= size (default_array [10; 20; 30]) /\
   size (default_array [10; 20; 30]) < 8) /\
  array_subarray (default_array [10; 20; 30]) 0 3 [true; true]
  = Done (Some (mkArray 4 4 float_zero (Some [Val 10; Val 20; Val 30; Val NULL])
                        libc_malloc libc_calloc libc_free)) [].
Proof.
  assert (Hb : 0 <= 0 <= size (default_array [10; 20; 30]))
    by (split; vm_compute; discriminate).
  assert (Hlen : size (default_array [10; 20; 30]) < 8) by reflexivity.
  split; [split; [exact Hb | exact Hlen]|].
  apply (array_subarray_end_at_size (default_array [10; 20; 30]) _ 0 []
           eq_refl Hb Hlen).
  vm_compute. discriminate.
Defined.

(** On a range inside the array the result has [e - b + 1] elements, the
    same capacity, and the handles of the range. *)
Example array_subarray_inside (A B C : ptr) :
  array_subarray (default_array [A; B; C]) 1 2 []
  = Done (Some (mkArray 2 2 float_zero (Some [Val B; Val C])
                        libc_malloc libc_calloc libc_free)) [].
Proof. reflexivity. Qed.

(** Ranges with [b > e] or [e > size] give the null result. *)
Lemma array_subarray_rejected ar b e w :
  e < b \/ size ar < e -> array_subarray ar b e w = Done None w.
Proof.
  intros Hr. unfold array_subarray.
  replace ((e <? b) || (size ar <? e)) with true; [reflexivity|].
  symmetry. apply orb_true_iff. destruct Hr; [left|right]; lia.
Qed.

(** ** Reversal *)

(** C5 fails on the code. The loop of [array_reverse] runs
    [(size - 1) / 2] times instead of [size / 2] times, so every
    two-element array is left as it is. *)
Theorem array_reverse_two_unchanged ar w :
  size ar = 2 -> array_reverse ar w = Done ar w.
Proof.
  intros Hsz. unfold array_reverse. rewrite Hsz.
  change (Z.to_nat (size_sub 2 1 / 2)) with O.
  destruct ar; reflexivity.
Qed.

Lemma array_reverse_two_unchanged_witness :
  size (default_array [10; 20]) = 2 /\
  array_reverse (default_array [10; 20]) [] = Done (default_array [10; 20]) [].
Proof.
  split; [reflexivity|].
  apply (array_reverse_two_unchanged (default_array [10; 20]) [] eq_refl).
Defined.

(** For the same reason a four-element array has only its outer pair
    swapped; on the empty array [size - 1] wraps, so that the first
    iteration reads [buffer[SIZE_MAX]]. *)
Example array_reverse_four_and_empty (A B C D : ptr) w :
  array_reverse (default_array [A; B; C; D]) w = Done (default_array [D; B; C; A]) w /\
  array_reverse (default_array []) w = Undefined.
Proof.
  split; [reflexivity|].
  unfold array_reverse.
  change (size_sub (size (default_array [])) 1 / 2) with (Z.succ (2 ^ 63 - 2)).
  rewrite Z2Nat.inj_succ by (vm_compute; discriminate).
  generalize (Z.to_nat (2 ^ 63 - 2)). intros n. reflexivity.
Qed.

(** Arrays of odd size are reversed. *)
Example array_reverse_odd_sizes (A B C : ptr) w :
  array_reverse (default_array [A]) w = Done (default_array [A]) w /\
  array_reverse (default_array [A; B; C]) w = Done (default_array [C; B; A]) w.
Proof. split; reflexivity. Qed.

(** ** Trimming *)

(** C6 fails on the code. On an empty array with slack
    [array_trim_capacity] requests a buffer of [size = 0] slots and then
    copies [max(size, 1) = 1] slot into it: the copy leaves the new block,
    whatever the allocator answers, and no array with capacity 1 results. *)
Theorem array_trim_capacity_empty ar w :
  size ar = 0 -> capacity ar <> 0 -> array_trim_capacity ar w = Undefined.
Proof.
  intros Hsz Hcap. unfold array_trim_capacity, bind. rewrite Hsz.
  replace (0 =? capacity ar) with false by lia.
  change (size_mul (if 0 <? 1 then 1 else 0) sizeof_ptr) with 8.
  unfold call_calloc, bind, alloc_ok, memcpy, ret.
  change (0 * sizeof_ptr <=? SIZE_MAX) with true.
  destruct w as [|[|] w]; cbn [andb];
    [rewrite memmove_dst_short by (vm_compute; reflexivity); reflexivity ..
    | reflexivity].
Qed.

Lemma array_trim_capacity_empty_witness :
  (size (default_array []) = 0 /\ capacity (default_array []) <> 0) /\
  array_trim_capacity (default_array []) [] = Undefined.
Proof.
  assert (Hcap : capacity (default_array []) <> 0) by (vm_compute; discriminate).
  split; [split; [reflexivity | exact Hcap]|].
  apply (array_trim_capacity_empty (default_array []) [] eq_refl Hcap).
Defined.

(** Whenever [array_trim_capacity] returns, the capacity it leaves is the
    size itself, also when the size is 0. *)
Lemma array_trim_capacity_capacity ar w ar' w' :
  array_trim_capacity ar w = Done ar' w' -> capacity ar' = size ar.
Proof.
  unfold array_trim_capacity. destruct (size ar =? capacity ar) eqn:Heq.
  - intros H. inv_ret H. lia.
  - intros H. inv_bind H. inv_bind H. inv_bind H. inv_ret H. reflexivity.
Qed.

(** No empty array comes out of [array_trim_capacity] with a slot to spare:
    an array whose size and capacity are both 0 is returned as it is. *)
Example array_trim_capacity_zero_capacity w :
  array_trim_capacity (mkArray 0 0 (float_of_Z 2) (Some []) libc_malloc libc_calloc libc_free) w
  = Done (mkArray 0 0 (float_of_Z 2) (Some []) libc_malloc libc_calloc libc_free) w.
Proof. reflexivity. Qed.

(** On a non-empty array with slack the buffer is cut down to the size. *)
Example array_trim_capacity_three (A B C : ptr) :
  array_trim_capacity (default_array [A; B; C]) []
  = Done (mkArray 3 3 (float_of_Z 2) (Some [Val A; Val B; Val C])
                  libc_malloc libc_calloc libc_free) [].
Proof. reflexivity. Qed.

(** ** The growth factor *)

(** C7 fails on the code. [array_subarray] never assigns [exp_factor]: the
    field keeps the zero it has in the zeroed structure, whatever the factor
    of the original array is, and 0 is not greater than 1. *)
Theorem array_subarray_exp_factor ar b e w sub w' :
  array_subarray ar b e w = Done (Some sub) w' ->
  exp_factor sub = float_zero /\ float_lt (float_of_Z 1) (exp_factor sub) = false.
Proof.
  unfold array_subarray. destruct (_ || _); [intros H; by inv_ret H|].
  intros H. inv_bind H. destruct a; [|discriminate]. cbn [negb] in H.
  inv_bind H. inv_bind H. inv_ret H. injection H as <-. split; reflexivity.
Qed.

Lemma array_subarray_exp_factor_witness :
  exists sub,
    array_subarray (default_array [10; 20; 30]) 0 1 [] = Done (Some sub) [] /\
    float_lt (float_of_Z 1) (exp_factor (default_array [10; 20; 30])) = true /\
    exp_factor sub = float_zero /\
    float_lt (float_of_Z 1) (exp_factor sub) = false.
Proof.
  exists (mkArray 2 2 float_zero (Some [Val 10; Val 20]) libc_malloc libc_calloc libc_free).
  split; [reflexivity|]. split; [reflexivity|].
  apply (array_subarray_exp_factor (default_array [10; 20; 30]) 0 1 [] _ [] eq_refl).
Defined.

(** The first [array_add] on such a subarray, which is always full, grows
    it by the factor 0: no slot is allocated and the copy of the live
    elements leaves the new block. *)
Example array_add_to_subarray :
  array_add sample_ceiling
    (mkArray 2 2 float_zero (Some [Val 10; Val 20]) libc_malloc libc_calloc libc_free) 30 []
  = Undefined.
Proof. vm_compute. reflexivity. Qed.

(** The copies keep the factor of the original. *)
Lemma array_copy_shallow_exp_factor ar w copy w' :
  array_copy_shallow ar w = Done copy w' -> exp_factor copy = exp_factor ar.
Proof.
  unfold array_copy_shallow. intros H. inv_bind H.
  destruct a; [|discriminate]. cbn [negb] in H.
  inv_bind H. inv_bind H. inv_ret H. reflexivity.
Qed.

Lemma array_copy_deep_exp_factor ar cp w copy w' :
  array_copy_deep ar cp w = Done copy w' -> exp_factor copy = exp_factor ar.
Proof.
  unfold array_copy_deep. intros H. inv_bind H.
  destruct a; [|discriminate]. cbn [negb] in H.
  inv_bind H. inv_bind H. inv_ret H. reflexivity.
Qed.

(** A configured factor of at most 1 is replaced by the default factor 2;
    any other factor that passes the overflow guard is kept. *)
Lemma array_new_conf_exp_factor MAX_ELEMENTS conf w ar w' :
  array_new_conf MAX_ELEMENTS conf w = Done (Some ar) w' ->
  exp_factor ar =
    if float_le (conf_exp_factor conf) (float_of_Z 1)
    then float_of_Z DEFAULT_EXPANSION_FACTOR
    else conf_exp_factor conf.
Proof.
  unfold array_new_conf. intros H. inv_bind H.
  destruct a; cbn [negb] in H; [|by inv_ret H]. cbv zeta in H.
  destruct (float_le (conf_exp_factor conf) (float_of_Z 1)).
  - inv_bind H. inv_ret H. by injection H as <-.
  - destruct (_ =? _); [discriminate|].
    destruct (float_le _ _); [by inv_ret H|].
    inv_bind H. inv_ret H. by injection H as <-.
Qed.

(** * Further properties of the operations *)

(** ** Consequences of [holds] *)

Lemma holds_buffer ar es :
  holds ar es -> es <> [] ->
  exists l, buffer ar = Some l /\ take (length es) l = Val <$> es /\
            Z.of_nat (length l) * sizeof_ptr <= SIZE_MAX.
Proof.
  intros [_ Hbuf] Hne. destruct (buffer ar) as [l|]; [|done].
  exists l. by destruct Hbuf.
Qed.

Lemma holds_length_le ar es l :
  holds ar es -> buffer ar = Some l -> (length es <= length l)%nat.
Proof.
  intros [_ Hbuf] Hl. rewrite Hl in Hbuf. destruct Hbuf as [Htake _].
  apply (f_equal length) in Htake. rewrite length_take, length_fmap in Htake. lia.
Qed.

Lemma holds_lookup ar es l i e :
  holds ar es -> buffer ar = Some l -> es !! i = Some e -> l !! i = Some (Val e).
Proof.
  intros [_ Hbuf] Hl He. rewrite Hl in Hbuf. destruct Hbuf as [Htake _].
  pose proof (lookup_lt_Some _ _ _ He) as Hlt.
  rewrite <- (lookup_take_lt l (length es)) by done.
  by rewrite Htake, list_lookup_fmap, He.
Qed.

Lemma holds_size_bound ar es :
  holds ar es -> Z.of_nat (length es) * sizeof_ptr <= SIZE_MAX.
Proof.
  intros Hh. destruct es as [|e es]; [done|].
  destruct (holds_buffer ar (e :: es) Hh) as (l & Hl & _ & Hmax); [done|].
  pose proof (holds_length_le _ _ _ Hh Hl). unfold sizeof_ptr in *. lia.
Qed.

Lemma holds_load ar es i e w :
  holds ar es -> es !! i = Some e -> load (buffer ar) (Z.of_nat i) w = Done e w.
Proof.
  intros Hh He.
  destruct (holds_buffer ar es Hh) as (l & Hl & _); [by intros ->|].
  rewrite Hl. apply load_Val; [lia|]. rewrite Nat2Z.id. by eapply holds_lookup.
Qed.

(** ** Reading *)

(** X1. [array_get] against the list of elements: the element at the index, or
    [NULL] once the index reaches the size, without touching the buffer. *)
Theorem array_get_spec ar es i w :
  holds ar es -> 0 <= i ->
  array_get ar i w = Done (default NULL (es !! Z.to_nat i)) w.
Proof.
  intros Hh Hi. unfold array_get. destruct Hh as [Hsz Hbuf].
  destruct (Z.leb_spec (size ar) i) as [Hge|Hlt].
  - rewrite lookup_ge_None_2 by lia. reflexivity.
  - destruct (lookup_lt_is_Some_2 es (Z.to_nat i)) as [e He]; [lia|].
    rewrite He. simpl. rewrite <- (Z2Nat.id i) at 1 by lia.
    by apply (holds_load ar es); [split|].
Qed.

Lemma array_get_spec_witness :
  (holds (default_array [10; 20; 30]) [10; 20; 30] /\ 0 <= 1 /\ 0 <= 3) /\
  array_get (default_array [10; 20; 30]) 1 [] = Done 20 [] /\
  array_get (default_array [10; 20; 30]) 3 [] = Done NULL [].
Proof.
  assert (Hh : holds (default_array [10; 20; 30]) [10; 20; 30])
    by (split; [reflexivity | split; [reflexivity | vm_compute; discriminate]]).
  assert (H1 : 0 <= 1) by lia. assert (H3 : 0 <= 3) by lia.
  split; [auto|]. split.
  - apply (array_get_spec (default_array [10; 20; 30]) [10; 20; 30] 1 [] Hh H1).
  - apply (array_get_spec (default_array [10; 20; 30]) [10; 20; 30] 3 [] Hh H3).
Defined.

(** X2. [array_get_last] returns the last element, and [NULL] on an empty
    array, where the index [size - 1] wraps and fails the bounds check. *)
Theorem array_get_last_spec ar es w :
  holds ar es ->
  array_get_last ar w = Done (default NULL (last es)) w.
Proof.
  intros Hh. unfold array_get_last, array_get.
  pose proof (holds_size_bound ar es Hh) as Hmax. unfold sizeof_ptr, SIZE_MAX in Hmax.
  pose proof Hh as [Hsz _]. rewrite Hsz.
  destruct (last es) as [e0|] eqn:Hlast.
  - apply last_Some in Hlast as [es0 ->].
    rewrite length_app in *. change (length [e0]) with 1%nat in *.
    assert (Hsub : size_sub (Z.of_nat (length es0 + 1)) 1 = Z.of_nat (length es0))
      by (unfold size_sub; rewrite wrap_small; unfold SIZE_MAX; lia).
    rewrite Hsub.
    destruct (Z.leb_spec (Z.of_nat (length es0 + 1)) (Z.of_nat (length es0))); [lia|].
    apply (holds_load ar (es0 ++ [e0])); [done|].
    rewrite lookup_app_r by lia. by rewrite Nat.sub_diag.
  - apply last_None in Hlast as ->. reflexivity.
Qed.

Lemma array_get_last_spec_witness :
  holds (default_array [10; 20; 30]) [10; 20; 30] /\
  array_get_last (default_array [10; 20; 30]) [] = Done 30 [].
Proof.
  assert (Hh : holds (default_array [10; 20; 30]) [10; 20; 30])
    by (split; [reflexivity | split; [reflexivity | vm_compute; discriminate]]).
  split; [exact Hh|].
  apply (array_get_last_spec (default_array [10; 20; 30]) [10; 20; 30] [] Hh).
Defined.

(** ** Removal *)

Lemma memmove_src_short d doff s soff bytes w :
  Z.of_nat (length s) < soff + bytes / sizeof_ptr ->
  memmove d doff (Some s) soff bytes w = Undefined.
Proof.
  intros Hs. unfold memmove. destruct d as [dl|]; [|reflexivity]. cbv zeta.
  replace (soff + bytes / sizeof_ptr <=? Z.of_nat (length s)) with false by lia.
  rewrite andb_false_r. reflexivity.
Qed.

Lemma holds_take ar es l k :
  holds ar es -> buffer ar = Some l -> (k <= length es)%nat ->
  take k l = Val <$> take k es.
Proof.
  intros [_ Hbuf] Hl Hk. rewrite Hl in Hbuf. destruct Hbuf as [Htake _].
  rewrite fmap_take, <- Htake, take_take. f_equal. lia.
Qed.

Lemma holds_drop_take ar es l i :
  holds ar es -> buffer ar = Some l -> (i <= length es)%nat ->
  take (length es - i) (drop i l) = Val <$> drop i es.
Proof.
  intros [_ Hbuf] Hl Hi. rewrite Hl in Hbuf. destruct Hbuf as [Htake _].
  rewrite take_drop_commute, fmap_drop, <- Htake. do 2 f_equal. lia.
Qed.

(** The block move shared by [array_remove_at] and [array_remove]: it
    closes the gap at [i]. Unless [i] is the last index, it also reads the
    slot behind the last element. *)
Lemma remove_shift ar es l i w :
  holds ar es -> buffer ar = Some l -> (i < length es)%nat ->
  (S i = length es \/ (length es < length l)%nat) ->
  exists l',
    (if negb (Z.of_nat i =? size_sub (size ar) 1)
     then memmove (buffer ar) (Z.of_nat i) (buffer ar) (size_add (Z.of_nat i) 1)
                  (size_mul (size_sub (size ar) (Z.of_nat i)) sizeof_ptr)
     else ret (buffer ar)) w = Done (Some l') w /\
    take (length es - 1) l' = Val <$> delete i es /\
    length l' = length l.
Proof.
  intros Hh Hl Hi Hroom.
  pose proof (holds_size_bound ar es Hh) as Hmax. unfold sizeof_ptr, SIZE_MAX in Hmax.
  pose proof (holds_length_le ar es l Hh Hl) as Hle.
  pose proof Hh as [Hsz _]. rewrite Hsz, Hl.
  assert (Hsub : size_sub (Z.of_nat (length es)) 1 = Z.of_nat (length es) - 1)
    by (unfold size_sub; apply wrap_small; unfold SIZE_MAX; lia).
  rewrite Hsub. rewrite delete_take_drop, fmap_app.
  destruct (Z.eqb_spec (Z.of_nat i) (Z.of_nat (length es) - 1)) as [Heq|Hne]; cbn [negb].
  - exists l. split; [reflexivity|]. split; [|reflexivity].
    rewrite (drop_ge es (S i)) by lia. rewrite fmap_nil, app_nil_r.
    replace (length es - 1)%nat with i by lia.
    apply (holds_take ar); [done..|lia].
  - assert (Hadd : size_add (Z.of_nat i) 1 = Z.of_nat (S i))
      by (unfold size_add; rewrite wrap_small; unfold SIZE_MAX; lia).
    assert (Hn : size_mul (size_sub (Z.of_nat (length es)) (Z.of_nat i)) sizeof_ptr / sizeof_ptr
                 = Z.of_nat (length es - i)).
    { unfold size_sub. rewrite wrap_small by (unfold SIZE_MAX; lia).
      rewrite size_mul_slots; unfold sizeof_ptr, SIZE_MAX; lia. }
    rewrite Hadd. rewrite memmove_ok by (rewrite ?Hn; lia). rewrite Hn.
    eexists. split; [reflexivity|]. split.
    + unfold blit. rewrite !Nat2Z.id.
      rewrite take_app_ge by (rewrite length_take; lia).
      rewrite length_take, Nat.min_l by lia.
      rewrite take_app_le by (rewrite length_take, length_drop; lia).
      rewrite take_take.
      replace ((length es - 1 - i) `min` (length es - i))%nat
        with (length es - S i)%nat by lia.
      rewrite (holds_take ar es l i) by (done || lia).
      rewrite (holds_drop_take ar es l (S i)) by (done || lia). reflexivity.
    + apply length_blit; lia.
Qed.

(** Removal at an index inside the array, run on the list of elements. *)
Lemma array_remove_at_holds ar es i e w :
  holds ar es -> es !! i = Some e ->
  (S i = length es \/ has_spare_slot ar) ->
  exists ar',
    array_remove_at ar (Z.of_nat i) w = Done (ar', e) w /\
    holds ar' (delete i es) /\ capacity ar' = capacity ar.
Proof.
  intros Hh He Hroom. pose proof (lookup_lt_Some _ _ _ He) as Hi.
  destruct (holds_buffer ar es Hh) as (l & Hl & _ & Hlen); [by intros ->|].
  assert (Hroom' : S i = length es \/ (length es < length l)%nat).
  { destruct Hroom as [?|Hs]; [by left|right].
    unfold has_spare_slot in Hs. rewrite Hl in Hs. destruct Hh as [Hsz _]. lia. }
  destruct (remove_shift ar es l i w Hh Hl Hi Hroom') as (l' & Hrun & Htake & Hlen').
  pose proof (holds_size_bound ar es Hh) as Hmax. unfold sizeof_ptr, SIZE_MAX in Hmax.
  pose proof Hh as [Hsz _].
  unfold array_remove_at, bind.
  destruct (Z.leb_spec (size ar) (Z.of_nat i)); [lia|].
  rewrite (holds_load ar es i e w Hh He). rewrite Hrun.
  eexists. split; [reflexivity|]. split; [|reflexivity].
  assert (Hdel : length (delete i es) = (length es - 1)%nat).
  { rewrite delete_take_drop, length_app, length_take, length_drop. lia. }
  split; cbn [size buffer set_size set_buffer].
  - rewrite Hsz, Hdel. unfold size_sub. rewrite wrap_small; unfold SIZE_MAX; lia.
  - rewrite Hdel. split; [done|]. by rewrite Hlen'.
Qed.

(** X3. [array_remove_at] at an index inside the array returns the element
    stored there; afterwards the size is one less, the elements before the
    index are where they were and every later element has moved one index
    down. Unless the index is the last one, the buffer must have a slot
    behind the last element. *)
Theorem array_remove_at_shifts ar es i e w :
  holds ar es -> es !! i = Some e ->
  (S i = length es \/ has_spare_slot ar) ->
  exists ar',
    array_remove_at ar (Z.of_nat i) w = Done (ar', e) w /\
    array_size ar' = array_size ar - 1 /\
    (forall j x, (j < i)%nat -> es !! j = Some x ->
                 array_get ar' (Z.of_nat j) w = Done x w) /\
    (forall j x, (i <= j)%nat -> es !! S j = Some x ->
                 array_get ar' (Z.of_nat j) w = Done x w).
Proof.
  intros Hh He Hroom.
  destruct (array_remove_at_holds ar es i e w Hh He Hroom) as (ar' & Hrun & Hh' & _).
  pose proof (lookup_lt_Some _ _ _ He) as Hi.
  exists ar'. split; [exact Hrun|]. split.
  - unfold array_size. destruct Hh as [-> _], Hh' as [-> _].
    rewrite delete_take_drop, length_app, length_take, length_drop. lia.
  - split; intros j x Hj Hx; apply (array_get_holds ar' (delete i es)); try done.
    + by rewrite list_lookup_delete_lt.
    + by rewrite list_lookup_delete_ge.
Qed.

Lemma array_remove_at_shifts_witness :
  (holds (default_array [10; 20; 30]) [10; 20; 30] /\
   has_spare_slot (default_array [10; 20; 30])) /\
  exists ar',
    array_remove_at (default_array [10; 20; 30]) 1 [] = Done (ar', 20) [] /\
    array_size ar' = 2 /\
    array_get ar' 0 [] = Done 10 [] /\
    array_get ar' 1 [] = Done 30 [].
Proof.
  assert (Hh : holds (default_array [10; 20; 30]) [10; 20; 30])
    by (split; [reflexivity | split; [reflexivity | vm_compute; discriminate]]).
  assert (Hs : has_spare_slot (default_array [10; 20; 30])) by reflexivity.
  split; [by split|].
  destruct (array_remove_at_shifts (default_array [10; 20; 30]) [10; 20; 30] 1%nat 20 []
              Hh eq_refl (or_intror Hs)) as (ar' & Hrun & Hsz & Hlow & Hhigh).
  exists ar'. split; [exact Hrun|]. split; [exact Hsz|]. split.
  - apply (Hlow 0%nat 10); [lia | reflexivity].
  - apply (Hhigh 1%nat 30); [lia | reflexivity].
Defined.

(** X4. On an array whose buffer is full, [array_remove_at] at any index but
    the last is undefined: the block move starts behind the removed element
    and is [size - index] slots long, one slot more than the buffer holds. *)
Theorem array_remove_at_full_overread ar es l i w :
  holds ar es -> buffer ar = Some l -> length l = length es ->
  (S i < length es)%nat ->
  array_remove_at ar (Z.of_nat i) w = Undefined.
Proof.
  intros Hh Hl Hfull Hi.
  pose proof (holds_size_bound ar es Hh) as Hmax. unfold sizeof_ptr, SIZE_MAX in Hmax.
  destruct (lookup_lt_is_Some_2 es i) as [e He]; [lia|].
  pose proof Hh as [Hsz _].
  unfold array_remove_at, bind.
  destruct (Z.leb_spec (size ar) (Z.of_nat i)); [lia|].
  rewrite (holds_load ar es i e w Hh He). rewrite Hsz, Hl.
  assert (Hsub : size_sub (Z.of_nat (length es)) 1 = Z.of_nat (length es) - 1)
    by (unfold size_sub; apply wrap_small; unfold SIZE_MAX; lia).
  rewrite Hsub.
  destruct (Z.eqb_spec (Z.of_nat i) (Z.of_nat (length es) - 1)); [lia|]. cbn [negb].
  rewrite memmove_src_short; [reflexivity|].
  unfold size_add, size_sub. rewrite !wrap_small by (unfold SIZE_MAX; lia).
  rewrite size_mul_slots by (unfold sizeof_ptr, SIZE_MAX; lia). lia.
Qed.

Lemma array_remove_at_full_overread_witness :
  holds (default_array [1; 2; 3; 4; 5; 6; 7; 8]) [1; 2; 3; 4; 5; 6; 7; 8] /\
  array_remove_at (default_array [1; 2; 3; 4; 5; 6; 7; 8]) 0 [] = Undefined.
Proof.
  assert (Hh : holds (default_array [1; 2; 3; 4; 5; 6; 7; 8]) [1; 2; 3; 4; 5; 6; 7; 8])
    by (split; [reflexivity | split; [reflexivity | vm_compute; discriminate]]).
  split; [exact Hh|].
  apply (array_remove_at_full_overread (default_array [1; 2; 3; 4; 5; 6; 7; 8])
           [1; 2; 3; 4; 5; 6; 7; 8] _ 0%nat [] Hh eq_refl eq_refl).
  simpl. lia.
Defined.

(** X5. [array_remove_last] on a non-empty array returns the last element and
    leaves the others, whether or not the buffer is full. *)
Theorem array_remove_last_spec ar es e w :
  holds ar (es ++ [e]) ->
  exists ar',
    array_remove_last ar w = Done (ar', e) w /\
    holds ar' es /\ capacity ar' = capacity ar.
Proof.
  intros Hh.
  pose proof (holds_size_bound ar _ Hh) as Hmax. unfold sizeof_ptr, SIZE_MAX in Hmax.
  rewrite length_app in Hmax. simpl in Hmax.
  assert (Hidx : size_sub (size ar) 1 = Z.of_nat (length es)).
  { destruct Hh as [-> _]. rewrite length_app. simpl.
    unfold size_sub. rewrite wrap_small; unfold SIZE_MAX; lia. }
  unfold array_remove_last. rewrite Hidx.
  destruct (array_remove_at_holds ar (es ++ [e]) (length es) e w Hh) as (ar' & Hrun & Hh' & Hcap).
  - rewrite lookup_app_r by lia. by rewrite Nat.sub_diag.
  - left. rewrite length_app. simpl. lia.
  - exists ar'. split; [exact Hrun|]. split; [|exact Hcap].
    rewrite delete_take_drop in Hh'.
    rewrite take_app_length, drop_ge, app_nil_r in Hh'; [done|].
    rewrite length_app. simpl. lia.
Qed.

Lemma array_remove_last_spec_witness :
  holds (default_array [10; 20; 30]) ([10; 20] ++ [30]) /\
  exists ar',
    array_remove_last (default_array [10; 20; 30]) [] = Done (ar', 30) [] /\
    holds ar' [10; 20] /\ capacity ar' = capacity (default_array [10; 20; 30]).
Proof.
  assert (Hh : holds (default_array [10; 20; 30]) ([10; 20] ++ [30]))
    by (split; [reflexivity | split; [reflexivity | vm_compute; discriminate]]).
  split; [exact Hh|].
  apply (array_remove_last_spec (default_array [10; 20; 30]) [10; 20] 30 [] Hh).
Defined.

(** [array_replace_at] at an index inside the array, run on the list of
    elements. *)
Lemma array_replace_at_holds ar es i old element w :
  holds ar es -> es !! i = Some old ->
  exists ar',
    array_replace_at ar element (Z.of_nat i) w = Done (ar', old) w /\
    holds ar' (<[i := element]> es) /\ capacity ar' = capacity ar.
Proof.
  intros Hh He. pose proof (lookup_lt_Some _ _ _ He) as Hi.
  destruct (holds_buffer ar es Hh) as (l & Hl & Htake & Hlen); [by intros ->|].
  pose proof (holds_length_le ar es l Hh Hl) as Hle.
  pose proof Hh as [Hsz _].
  unfold array_replace_at, bind.
  destruct (Z.leb_spec (size ar) (Z.of_nat i)); [lia|].
  rewrite (holds_load ar es i old w Hh He). rewrite Hl.
  rewrite store_ok by lia. rewrite Nat2Z.id.
  eexists. split; [reflexivity|]. split; [|reflexivity].
  split; cbn [size buffer set_buffer]; rewrite length_insert; [done|].
  split; [|by rewrite length_insert].
  rewrite take_insert_lt by lia. rewrite Htake. by rewrite list_fmap_insert.
Qed.

(** X6. [array_replace_at] at an index inside the array returns the handle
    stored there; afterwards [array_get] finds the new handle at that index
    and the old handles at all others, and the size is the same. An index
    from the size on gives [NULL] and changes nothing. *)
Theorem array_replace_at_spec ar es i element w :
  holds ar es ->
  match es !! i with
  | Some old =>
      exists ar',
        array_replace_at ar element (Z.of_nat i) w = Done (ar', old) w /\
        array_size ar' = array_size ar /\
        array_get ar' (Z.of_nat i) w = Done element w /\
        (forall j x, j <> i -> es !! j = Some x ->
                     array_get ar' (Z.of_nat j) w = Done x w)
  | None => array_replace_at ar element (Z.of_nat i) w = Done (ar, NULL) w
  end.
Proof.
  intros Hh. destruct (es !! i) as [old|] eqn:He.
  - destruct (array_replace_at_holds ar es i old element w Hh He) as (ar' & Hrun & Hh' & _).
    pose proof (lookup_lt_Some _ _ _ He) as Hi.
    exists ar'. split; [exact Hrun|]. split.
    { unfold array_size. destruct Hh as [-> _], Hh' as [-> _]. by rewrite length_insert. }
    split.
    + apply (array_get_holds ar' (<[i := element]> es)); [done|].
      by apply list_lookup_insert_eq.
    + intros j x Hj Hx. apply (array_get_holds ar' (<[i := element]> es)); [done|].
      by rewrite list_lookup_insert_ne.
  - apply lookup_ge_None in He. destruct Hh as [Hsz _].
    unfold array_replace_at. destruct (Z.leb_spec (size ar) (Z.of_nat i)); [done|lia].
Qed.

Lemma array_replace_at_spec_witness :
  holds (default_array [10; 20; 30]) [10; 20; 30] /\
  exists ar',
    array_replace_at (default_array [10; 20; 30]) 77 1 [] = Done (ar', 20) [] /\
    array_size ar' = 3 /\
    array_get ar' 1 [] = Done 77 [] /\
    array_get ar' 2 [] = Done 30 [].
Proof.
  assert (Hh : holds (default_array [10; 20; 30]) [10; 20; 30])
    by (split; [reflexivity | split; [reflexivity | vm_compute; discriminate]]).
  split; [exact Hh|].
  destruct (array_replace_at_spec (default_array [10; 20; 30]) [10; 20; 30] 1%nat 77 [] Hh)
    as (ar' & Hrun & Hsz & Hnew & Hold).
  exists ar'. split; [exact Hrun|]. split; [exact Hsz|]. split; [exact Hnew|].
  apply (Hold 2%nat 30); [lia | reflexivity].
Defined.

(** ** Insertion *)

Lemma holds_default es :
  (length es <= 8)%nat -> holds (default_array es) es.
Proof.
  intros Hlen. split; [reflexivity|]. cbn [buffer default_array]. split.
  - rewrite take_app_length'; [done | by rewrite length_fmap].
  - rewrite length_app, length_fmap, length_replicate.
    unfold sizeof_ptr, SIZE_MAX. lia.
Qed.

(** X7. With room in the buffer [array_add] cannot fail: it reports success
    without calling the allocator, appends the handle and keeps the
    capacity. *)
Theorem array_add_with_room MAX_ELEMENTS ar es e w :
  holds ar es -> has_room ar ->
  exists ar',
    array_add MAX_ELEMENTS ar e w = Done (ar', true) w /\
    holds ar' (es ++ [e]) /\ capacity ar' = capacity ar.
Proof.
  intros Hh [Hlt Hcap].
  destruct (buffer ar) as [l|] eqn:Hl; [|done].
  pose proof Hh as [Hsz _].
  assert (Hrun : array_add MAX_ELEMENTS ar e w
                 = Done (set_size (set_buffer ar (Some (<[Z.to_nat (size ar) := Val e]> l)))
                                  (size_add (size ar) 1), true) w).
  { unfold array_add, bind.
    destruct (Z.leb_spec (capacity ar) (size ar)); [lia|].
    unfold ret at 1. cbn [negb]. rewrite Hl.
    rewrite store_ok by lia. reflexivity. }
  eexists. split; [exact Hrun|]. split; [|reflexivity].
  eapply array_add_holds; [exact Hh | exact Hrun].
Qed.

Lemma array_add_with_room_witness :
  (holds (default_array [10; 20]) [10; 20] /\ has_room (default_array [10; 20])) /\
  exists ar',
    array_add sample_ceiling (default_array [10; 20]) 30 [false] = Done (ar', true) [false] /\
    holds ar' ([10; 20] ++ [30]) /\ capacity ar' = capacity (default_array [10; 20]).
Proof.
  assert (Hh : holds (default_array [10; 20]) [10; 20]) by (apply holds_default; simpl; lia).
  assert (Hr : has_room (default_array [10; 20]))
    by (split; vm_compute; [reflexivity | discriminate]).
  split; [by split|].
  apply (array_add_with_room sample_ceiling (default_array [10; 20]) [10; 20] 30 [false] Hh Hr).
Defined.

(** X8. A full array whose capacity has reached the ceiling takes no further
    handle: [array_add] reports failure without calling the allocator and
    leaves the array as it was. *)
Theorem array_add_capacity_exhausted MAX_ELEMENTS ar e w :
  capacity ar = MAX_ELEMENTS -> capacity ar <= size ar ->
  array_add MAX_ELEMENTS ar e w = Done (ar, false) w.
Proof.
  intros Hcap Hfull. unfold array_add, expand_capacity, bind.
  destruct (Z.leb_spec (capacity ar) (size ar)); [|lia].
  destruct (Z.eqb_spec (capacity ar) MAX_ELEMENTS); [reflexivity|done].
Qed.

Lemma array_add_capacity_exhausted_witness :
  (capacity (default_array [1; 2; 3; 4; 5; 6; 7; 8]) = 8 /\
   capacity (default_array [1; 2; 3; 4; 5; 6; 7; 8])
   <= size (default_array [1; 2; 3; 4; 5; 6; 7; 8])) /\
  array_add 8 (default_array [1; 2; 3; 4; 5; 6; 7; 8]) 9 []
  = Done (default_array [1; 2; 3; 4; 5; 6; 7; 8], false) [].
Proof.
  assert (Hfull : capacity (default_array [1; 2; 3; 4; 5; 6; 7; 8])
                  <= size (default_array [1; 2; 3; 4; 5; 6; 7; 8]))
    by (vm_compute; discriminate).
  split; [split; [reflexivity | exact Hfull]|].
  apply (array_add_capacity_exhausted 8 (default_array [1; 2; 3; 4; 5; 6; 7; 8]) 9 []
           eq_refl Hfull).
Defined.

(** X9. Round trip: after a successful [array_add], [array_remove_last] gives
    the handle back and the array holds the elements it held before. *)
Theorem array_add_remove_last MAX_ELEMENTS ar es e w ar1 w1 :
  holds ar es ->
  array_add MAX_ELEMENTS ar e w = Done (ar1, true) w1 ->
  exists ar2, array_remove_last ar1 w1 = Done (ar2, e) w1 /\ holds ar2 es.
Proof.
  intros Hh Hadd.
  pose proof (array_add_holds MAX_ELEMENTS ar es e w ar1 w1 Hh Hadd) as Hh1.
  pose proof (holds_size_bound ar1 _ Hh1) as Hmax. unfold sizeof_ptr, SIZE_MAX in Hmax.
  rewrite length_app in Hmax. simpl in Hmax.
  assert (Hidx : size_sub (size ar1) 1 = Z.of_nat (length es)).
  { destruct Hh1 as [-> _]. rewrite length_app. simpl.
    unfold size_sub. rewrite wrap_small; unfold SIZE_MAX; lia. }
  unfold array_remove_last. rewrite Hidx.
  destruct (array_remove_at_holds ar1 (es ++ [e]) (length es) e w1 Hh1)
    as (ar2 & Hrun & Hh2 & _).
  - rewrite lookup_app_r by lia. by rewrite Nat.sub_diag.
  - left. rewrite length_app. simpl. lia.
  - exists ar2. split; [exact Hrun|].
    rewrite delete_take_drop in Hh2.
    rewrite take_app_length, drop_ge, app_nil_r in Hh2; [done|].
    rewrite length_app. simpl. lia.
Qed.

Lemma array_add_remove_last_witness :
  (holds (default_array [10; 20]) [10; 20] /\
   array_add sample_ceiling (default_array [10; 20]) 30 []
   = Done (default_array [10; 20; 30], true) []) /\
  exists ar2,
    array_remove_last (default_array [10; 20; 30]) [] = Done (ar2, 30) [] /\
    holds ar2 [10; 20].
Proof.
  assert (Hh : holds (default_array [10; 20]) [10; 20]) by (apply holds_default; simpl; lia).
  assert (Hadd : array_add sample_ceiling (default_array [10; 20]) 30 []
                 = Done (default_array [10; 20; 30], true) []) by reflexivity.
  split; [by split|].
  apply (array_add_remove_last sample_ceiling (default_array [10; 20]) [10; 20] 30 []
           (default_array [10; 20; 30]) [] Hh Hadd).
Defined.

(** [array_add_at] at an index inside an array with room, run on the list
    of elements. *)
Lemma array_add_at_holds MAX_ELEMENTS ar es i e w :
  holds ar es -> (i < length es)%nat -> has_room ar ->
  exists ar',
    array_add_at MAX_ELEMENTS ar e (Z.of_nat i) w = Done (ar', true) w /\
    holds ar' (take i es ++ e :: drop i es) /\ capacity ar' = capacity ar.
Proof.
  intros Hh Hi [Hlt Hcap].
  destruct (buffer ar) as [l|] eqn:Hl; [|done].
  pose proof (holds_size_bound ar es Hh) as Hmax.
  pose proof (holds_length_le ar es l Hh Hl) as Hle.
  pose proof Hh as [Hsz Hb]. rewrite Hl in Hb. destruct Hb as [_ Hlen'].
  rewrite (array_add_at_room MAX_ELEMENTS ar l e (Z.of_nat i) w Hl)
    by (rewrite ?Hsz; lia).
  eexists. split; [reflexivity|]. split; [|reflexivity].
  assert (Hlenr : length (take i es ++ e :: drop i es) = S (length es)).
  { rewrite length_app, length_take, length_cons, length_drop. lia. }
  assert (Hblit : 0 <= Z.of_nat i + 1 /\ 0 <= Z.of_nat i /\ 0 <= size ar - Z.of_nat i /\
                  Z.of_nat i + (size ar - Z.of_nat i) <= Z.of_nat (length l) /\
                  Z.of_nat i + 1 + (size ar - Z.of_nat i) <= Z.of_nat (length l)) by lia.
  split; cbn [size buffer set_size set_buffer]; [rewrite Hlenr; lia|].
  rewrite length_insert, length_blit by lia. split; [|done].
  rewrite Hlenr. unfold blit. rewrite Hsz.
  replace (Z.to_nat (Z.of_nat i + 1)) with (S i) by lia.
  replace (Z.to_nat (Z.of_nat (length es) - Z.of_nat i)) with (length es - i)%nat by lia.
  rewrite !Nat2Z.id.
  destruct (lookup_lt_is_Some_2 l i) as [s Hs]; [lia|].
  rewrite (take_S_r l i s Hs), <- app_assoc.
  assert (Hti : length (take i l) = i) by (rewrite length_take; lia).
  rewrite insert_app_r_alt by lia. rewrite Hti, Nat.sub_diag. cbn [insert list_insert app].
  rewrite take_app_ge by lia. rewrite Hti.
  replace (S (length es) - i)%nat with (S (length es - i)) by lia.
  rewrite firstn_cons.
  rewrite take_app_le by (rewrite length_take, length_drop; lia).
  rewrite take_take, Nat.min_id.
  rewrite (holds_take ar es l i) by (done || lia).
  rewrite (holds_drop_take ar es l i) by (done || lia).
  by rewrite fmap_app, fmap_cons.
Qed.

(** X10. [array_add_at] at an index inside an array with room reports success
    and inserts the handle at that index: afterwards the size is one more,
    [array_get] finds the handle at the index, the elements before it where
    they were and the elements from it on one index up. *)
Theorem array_add_at_inserts MAX_ELEMENTS ar es i e w :
  holds ar es -> (i < length es)%nat -> has_room ar ->
  exists ar',
    array_add_at MAX_ELEMENTS ar e (Z.of_nat i) w = Done (ar', true) w /\
    array_size ar' = array_size ar + 1 /\
    array_get ar' (Z.of_nat i) w = Done e w /\
    (forall j x, (j < i)%nat -> es !! j = Some x ->
                 array_get ar' (Z.of_nat j) w = Done x w) /\
    (forall j x, (i <= j)%nat -> es !! j = Some x ->
                 array_get ar' (Z.of_nat (S j)) w = Done x w).
Proof.
  intros Hh Hi Hroom.
  destruct (array_add_at_holds MAX_ELEMENTS ar es i e w Hh Hi Hroom) as (ar' & Hrun & Hh' & _).
  assert (Hti : length (take i es) = i) by (rewrite length_take; lia).
  exists ar'. split; [exact Hrun|]. split.
  { unfold array_size. destruct Hh as [-> _], Hh' as [-> _].
    rewrite length_app, length_take, length_cons, length_drop. lia. }
  split; [|split].
  - apply (array_get_holds ar' _ i e w Hh').
    rewrite lookup_app_r by lia. by rewrite Hti, Nat.sub_diag.
  - intros j x Hj Hx. apply (array_get_holds ar' _ j x w Hh').
    rewrite lookup_app_l by lia. by rewrite lookup_take_lt.
  - intros j x Hj Hx. apply (array_get_holds ar' _ (S j) x w Hh').
    rewrite lookup_app_r by lia. rewrite Hti.
    replace (S j - i)%nat with (S (j - i)) by lia.
    change ((e :: drop i es) !! S (j - i)) with (drop i es !! (j - i)%nat).
    rewrite lookup_drop. rewrite <- Hx. f_equal. lia.
Qed.

Lemma array_add_at_inserts_witness :
  (holds (default_array [10; 20; 30]) [10; 20; 30] /\ has_room (default_array [10; 20; 30])) /\
  exists ar',
    array_add_at sample_ceiling (default_array [10; 20; 30]) 77 1 [] = Done (ar', true) [] /\
    array_size ar' = 4 /\
    array_get ar' 1 [] = Done 77 [] /\
    array_get ar' 0 [] = Done 10 [] /\
    array_get ar' 2 [] = Done 20 [].
Proof.
  assert (Hh : holds (default_array [10; 20; 30]) [10; 20; 30])
    by (apply holds_default; simpl; lia).
  assert (Hr : has_room (default_array [10; 20; 30]))
    by (split; vm_compute; [reflexivity | discriminate]).
  assert (Hi : (1 < length [10; 20; 30])%nat) by (simpl; lia).
  split; [by split|].
  destruct (array_add_at_inserts sample_ceiling (default_array [10; 20; 30]) [10; 20; 30]
              1%nat 77 [] Hh Hi Hr) as (ar' & Hrun & Hsz & Hnew & Hlow & Hhigh).
  exists ar'. split; [exact Hrun|]. split; [exact Hsz|]. split; [exact Hnew|]. split.
  - apply (Hlow 0%nat 10); [lia | reflexivity].
  - apply (Hhigh 1%nat 20); [lia | reflexivity].
Defined.

(** X11. After the cursor has yielded the element at index [i], which is not the
    last one, [array_iter_add] on an array with room inserts the handle
    behind that element and steps over it: the next [array_iter_next] yields
    the element that was at index [i + 1]. *)
Theorem array_iter_add_between MAX_ELEMENTS ar es i a b element w :
  holds ar es -> es !! i = Some a -> es !! S i = Some b -> has_room ar ->
  exists ar',
    array_iter_next (mkArrayIter ar (Z.of_nat i)) w
    = Done (mkArrayIter ar (Z.of_nat (S i)), a) w /\
    array_iter_add MAX_ELEMENTS (mkArrayIter ar (Z.of_nat (S i))) element w
    = Done (mkArrayIter ar' (Z.of_nat (S (S i))), true) w /\
    holds ar' (take (S i) es ++ element :: drop (S i) es) /\
    array_iter_next (mkArrayIter ar' (Z.of_nat (S (S i)))) w
    = Done (mkArrayIter ar' (Z.of_nat (S (S (S i)))), b) w.
Proof.
  intros Hh Ha Hb Hroom.
  pose proof (lookup_lt_Some _ _ _ Hb) as Hi.
  pose proof (holds_size_bound ar es Hh) as Hmax. unfold sizeof_ptr, SIZE_MAX in Hmax.
  destruct (array_add_at_holds MAX_ELEMENTS ar es (S i) element w Hh Hi Hroom)
    as (ar' & Hrun & Hh' & _).
  assert (Hload : forall j x, es !! j = Some x -> (j < length es)%nat ->
            array_iter_next (mkArrayIter ar (Z.of_nat j)) w
            = Done (mkArrayIter ar (Z.of_nat (S j)), x) w).
  { intros j x Hx Hj. unfold array_iter_next, bind. cbn [iter_ar iter_index].
    rewrite (holds_load ar es j x w Hh Hx).
    unfold size_add. rewrite wrap_small by (unfold SIZE_MAX; lia).
    do 3 f_equal. lia. }
  exists ar'. split; [apply Hload; [done|lia]|]. split; [|split; [exact Hh'|]].
  - unfold array_iter_add, bind. cbn [iter_ar iter_index]. rewrite Hrun.
    unfold size_add. rewrite wrap_small by (unfold SIZE_MAX; lia).
    unfold ret. do 3 f_equal. lia.
  - unfold array_iter_next, bind. cbn [iter_ar iter_index].
    rewrite (holds_load ar' _ (S (S i)) b w Hh').
    + unfold size_add. rewrite wrap_small by (unfold SIZE_MAX; lia).
      unfold ret. do 3 f_equal. lia.
    + assert (Hti : length (take (S i) es) = S i) by (rewrite length_take; lia).
      rewrite lookup_app_r by lia. rewrite Hti.
      replace (S (S i) - S i)%nat with 1%nat by lia.
      change ((element :: drop (S i) es) !! 1%nat) with (drop (S i) es !! 0%nat).
      rewrite lookup_drop. rewrite <- Hb. f_equal. lia.
Qed.

Lemma array_iter_add_between_witness :
  (holds (default_array [10; 20; 30]) [10; 20; 30] /\ has_room (default_array [10; 20; 30])) /\
  exists ar',
    array_iter_next (mkArrayIter (default_array [10; 20; 30]) 1) []
    = Done (mkArrayIter (default_array [10; 20; 30]) 2, 20) [] /\
    array_iter_add sample_ceiling (mkArrayIter (default_array [10; 20; 30]) 2) 77 []
    = Done (mkArrayIter ar' 3, true) [] /\
    holds ar' [10; 20; 77; 30] /\
    array_iter_next (mkArrayIter ar' 3) [] = Done (mkArrayIter ar' 4, 30) [].
Proof.
  assert (Hh : holds (default_array [10; 20; 30]) [10; 20; 30])
    by (apply holds_default; simpl; lia).
  assert (Hr : has_room (default_array [10; 20; 30]))
    by (split; vm_compute; [reflexivity | discriminate]).
  split; [by split|].
  apply (array_iter_add_between sample_ceiling (default_array [10; 20; 30]) [10; 20; 30]
           1%nat 20 30 77 [] Hh eq_refl eq_refl Hr).
Defined.

(** ** Searching *)

Section Searching.

Variable NO_SUCH_INDEX : Z.

Lemma slots_from_cons l i x es2 :
  slots_from l i (x :: es2) ->
  l !! i = Some (Val x) /\ slots_from l (S i) es2.
Proof.
  intros H. split.
  - rewrite <- (Nat.add_0_r i). by apply H.
  - intros k y Hk. replace (S i + k)%nat with (i + S k)%nat by lia. by apply H.
Qed.

Lemma holds_slots_from ar es l :
  holds ar es -> buffer ar = Some l -> slots_from l 0 es.
Proof. intros Hh Hl k x Hk. by eapply holds_lookup. Qed.

Lemma size_add_succ i :
  Z.of_nat i < SIZE_MAX -> size_add (Z.of_nat i) 1 = Z.of_nat (S i).
Proof. intros. unfold size_add. rewrite wrap_small; lia. Qed.

Lemma index_of_loop_find element l es2 : forall i w,
  slots_from l i es2 ->
  Z.of_nat (i + length es2) <= SIZE_MAX ->
  index_of_loop NO_SUCH_INDEX element (Some l) (length es2) (Z.of_nat i) w
  = Done (match list_find (fun x => x = element) es2 with
          | Some (j, _) => Z.of_nat (i + j)
          | None => NO_SUCH_INDEX
          end) w.
Proof.
  induction es2 as [|x es2 IH]; intros i w Hsl Hmax; [reflexivity|].
  apply slots_from_cons in Hsl as [Hx Hsl]. simpl length in Hmax.
  cbn [length index_of_loop list_find]. unfold bind at 1.
  rewrite (load_Val l (Z.of_nat i) x) by (lia || by rewrite Nat2Z.id).
  destruct (Z.eqb_spec x element) as [->|Hne].
  - rewrite decide_True by done. by rewrite Nat.add_0_r.
  - rewrite decide_False by done. rewrite size_add_succ by lia.
    rewrite IH by (done || lia).
    destruct (list_find _ es2) as [[j y]|]; simpl; [|done].
    do 2 f_equal. lia.
Qed.

Lemma array_index_of_find ar es element w :
  holds ar es ->
  array_index_of NO_SUCH_INDEX ar element w
  = Done (match list_find (fun x => x = element) es with
          | Some (j, _) => Z.of_nat j
          | None => NO_SUCH_INDEX
          end) w.
Proof.
  intros Hh. unfold array_index_of. pose proof Hh as [Hsz _].
  rewrite Hsz, Nat2Z.id.
  destruct es as [|e0 es0]; [reflexivity|].
  destruct (holds_buffer ar (e0 :: es0) Hh) as (l & Hl & _ & Hlen); [done|].
  pose proof (holds_length_le ar _ l Hh Hl) as Hle.
  rewrite Hl. change 0 with (Z.of_nat 0).
  rewrite index_of_loop_find;
    [reflexivity | by eapply holds_slots_from | unfold sizeof_ptr, SIZE_MAX in *; lia].
Qed.

(** X12. When [NO_SUCH_INDEX] is not an index of the array,
    [array_index_of] returns [NO_SUCH_INDEX] exactly when the handle does
    not occur among the elements; when it occurs, the result is the index
    of its first occurrence, a value other than [NO_SUCH_INDEX]. *)
Theorem array_index_of_spec ar es element w :
  holds ar es ->
  Z.of_nat (length es) <= NO_SUCH_INDEX ->
  exists r,
    array_index_of NO_SUCH_INDEX ar element w = Done r w /\
    (r = NO_SUCH_INDEX <-> element ∉ es) /\
    (element ∈ es ->
     exists i, r = Z.of_nat i /\ r <> NO_SUCH_INDEX /\
               es !! i = Some element /\
               (forall j, (j < i)%nat -> es !! j <> Some element)).
Proof.
  intros Hh Hns. rewrite (array_index_of_find ar es element w Hh).
  destruct (list_find _ es) as [[i y]|] eqn:Hfind.
  - apply list_find_Some in Hfind as (Hi & -> & Hfirst).
    pose proof (lookup_lt_Some _ _ _ Hi) as Hlt.
    assert (Hin : element ∈ es) by (apply list_elem_of_lookup; by exists i).
    exists (Z.of_nat i). split; [done|]. split.
    + split; [lia | done].
    + intros _. exists i. split; [done|]. split; [lia|]. split; [done|].
      intros j Hj Hje. by apply (Hfirst j element).
  - apply list_find_None in Hfind.
    assert (Hnot : element ∉ es).
    { intros Hin. rewrite Forall_forall in Hfind. by apply (Hfind element). }
    exists NO_SUCH_INDEX. split; [done|]. split; [done|]. intros Hin. done.
Qed.

Lemma contains_loop_count element l es2 : forall i o w,
  slots_from l i es2 ->
  Z.of_nat (i + length es2) <= SIZE_MAX ->
  0 <= o <= Z.of_nat i ->
  contains_loop element (Some l) (length es2) (Z.of_nat i) o w
  = Done (o + Z.of_nat (length (filter (fun x => x = element) es2))) w.
Proof.
  induction es2 as [|x es2 IH]; intros i o w Hsl Hmax Ho.
  - simpl. unfold ret. f_equal. lia.
  - apply slots_from_cons in Hsl as [Hx Hsl]. simpl length in Hmax.
    cbn [length contains_loop]. unfold bind at 1.
    rewrite (load_Val l (Z.of_nat i) x) by (lia || by rewrite Nat2Z.id).
    rewrite size_add_succ by lia. rewrite filter_cons.
    destruct (Z.eqb_spec element x) as [->|Hne].
    + rewrite decide_True by done.
      rewrite IH by (done || lia || (unfold size_add; rewrite wrap_small; lia)).
      unfold size_add. rewrite wrap_small by lia. simpl length. f_equal. lia.
    + rewrite decide_False by (by intros ->). by rewrite IH by (done || lia).
Qed.

(** X13. [array_contains] counts the occurrences of the handle among the
    elements. *)
Theorem array_contains_spec ar es element w :
  holds ar es ->
  array_contains ar element w
  = Done (Z.of_nat (length (filter (fun x => x = element) es))) w.
Proof.
  intros Hh. unfold array_contains. pose proof Hh as [Hsz _].
  rewrite Hsz, Nat2Z.id.
  destruct es as [|e0 es0]; [reflexivity|].
  destruct (holds_buffer ar (e0 :: es0) Hh) as (l & Hl & _ & Hlen); [done|].
  pose proof (holds_length_le ar _ l Hh Hl) as Hle.
  rewrite Hl. change 0 with (Z.of_nat 0) at 1.
  rewrite contains_loop_count;
    [reflexivity | by eapply holds_slots_from
     | unfold sizeof_ptr, SIZE_MAX in *; lia | simpl; lia].
Qed.

End Searching.

Lemma array_index_of_spec_witness :
  (holds (default_array [10; 20; 10]) [10; 20; 10] /\
   Z.of_nat (length [10; 20; 10]) <= 2 ^ 64 - 1) /\
  exists r,
    array_index_of (2 ^ 64 - 1) (default_array [10; 20; 10]) 20 [] = Done r [] /\
    (r = 2 ^ 64 - 1 <-> 20 ∉ [10; 20; 10]) /\
    (20 ∈ [10; 20; 10] ->
     exists i, r = Z.of_nat i /\ r <> 2 ^ 64 - 1 /\
               [10; 20; 10] !! i = Some 20 /\
               (forall j, (j < i)%nat -> [10; 20; 10] !! j <> Some 20)).
Proof.
  assert (Hh : holds (default_array [10; 20; 10]) [10; 20; 10])
    by (apply holds_default; simpl; lia).
  assert (Hns : Z.of_nat (length [10; 20; 10]) <= 2 ^ 64 - 1) by (simpl; lia).
  split; [by split|].
  apply (array_index_of_spec (2 ^ 64 - 1) (default_array [10; 20; 10]) [10; 20; 10] 20 []
           Hh Hns).
Defined.

Lemma array_contains_spec_witness :
  holds (default_array [10; 20; 10]) [10; 20; 10] /\
  array_contains (default_array [10; 20; 10]) 10 [] = Done 2 [].
Proof.
  assert (Hh : holds (default_array [10; 20; 10]) [10; 20; 10])
    by (apply holds_default; simpl; lia).
  split; [exact Hh|].
  apply (array_contains_spec (default_array [10; 20; 10]) [10; 20; 10] 10 [] Hh).
Defined.

(** ** Removal by value *)

Section RemovalByValue.

Variable NO_SUCH_INDEX : Z.

(** [array_remove] of a handle whose first occurrence is at [i]. *)
Lemma array_remove_holds ar es i element w :
  holds ar es ->
  Z.of_nat (length es) <= NO_SUCH_INDEX ->
  es !! i = Some element ->
  (forall j, (j < i)%nat -> es !! j <> Some element) ->
  (S i = length es \/ has_spare_slot ar) ->
  exists ar',
    array_remove NO_SUCH_INDEX ar element w = Done (ar', element) w /\
    holds ar' (delete i es) /\ capacity ar' = capacity ar.
Proof.
  intros Hh Hns He Hfirst Hroom. pose proof (lookup_lt_Some _ _ _ He) as Hi.
  destruct (holds_buffer ar es Hh) as (l & Hl & _ & Hlen); [by intros ->|].
  assert (Hroom' : S i = length es \/ (length es < length l)%nat).
  { destruct Hroom as [?|Hs]; [by left|right].
    unfold has_spare_slot in Hs. rewrite Hl in Hs. destruct Hh as [Hsz _]. lia. }
  destruct (remove_shift ar es l i w Hh Hl Hi Hroom') as (l' & Hrun & Htake & Hlen').
  pose proof (holds_size_bound ar es Hh) as Hmax. unfold sizeof_ptr, SIZE_MAX in Hmax.
  pose proof Hh as [Hsz _].
  assert (Hfind : list_find (fun x => x = element) es = Some (i, element)).
  { apply list_find_Some. split; [done|]. split; [done|].
    intros j y Hy Hj ->. by apply (Hfirst j). }
  unfold array_remove, bind.
  rewrite (array_index_of_find NO_SUCH_INDEX ar es element w Hh), Hfind.
  destruct (Z.eqb_spec (Z.of_nat i) NO_SUCH_INDEX); [lia|].
  rewrite Hrun.
  eexists. split; [reflexivity|]. split; [|reflexivity].
  assert (Hdel : length (delete i es) = (length es - 1)%nat).
  { rewrite delete_take_drop, length_app, length_take, length_drop. lia. }
  split; cbn [size buffer set_size set_buffer].
  - rewrite Hsz, Hdel. unfold size_sub. rewrite wrap_small; unfold SIZE_MAX; lia.
  - rewrite Hdel. split; [done|]. by rewrite Hlen'.
Qed.

(** X14. [array_remove] removes the first occurrence of the handle and returns
    the handle; when the handle does not occur it returns [NULL] and leaves
    the array as it was. [NO_SUCH_INDEX] must not be an index of the
    array. *)
Theorem array_remove_spec ar es element w :
  holds ar es ->
  Z.of_nat (length es) <= NO_SUCH_INDEX ->
  ((element ∉ es) -> array_remove NO_SUCH_INDEX ar element w = Done (ar, NULL) w) /\
  (forall i, es !! i = Some element ->
             (forall j, (j < i)%nat -> es !! j <> Some element) ->
             (S i = length es \/ has_spare_slot ar) ->
             exists ar',
               array_remove NO_SUCH_INDEX ar element w = Done (ar', element) w /\
               holds ar' (delete i es) /\ capacity ar' = capacity ar).
Proof.
  intros Hh Hns. split.
  - intros Hnot. unfold array_remove, bind.
    rewrite (array_index_of_find NO_SUCH_INDEX ar es element w Hh).
    destruct (list_find _ es) as [[i y]|] eqn:Hfind.
    + apply list_find_Some in Hfind as (Hi & -> & _).
      exfalso. apply Hnot. apply list_elem_of_lookup. by exists i.
    + by rewrite Z.eqb_refl.
  - intros i He Hfirst Hroom. by apply array_remove_holds.
Qed.

Variable MAX_ELEMENTS : Z.

(** X15. Round trip: after a successful [array_add] of a handle that did not
    occur in the array, [array_remove] of that handle gives it back and the
    array holds the elements it held before. *)
Theorem array_add_remove ar es e w ar1 w1 :
  holds ar es ->
  e ∉ es ->
  Z.of_nat (length es) < NO_SUCH_INDEX ->
  array_add MAX_ELEMENTS ar e w = Done (ar1, true) w1 ->
  exists ar2, array_remove NO_SUCH_INDEX ar1 e w1 = Done (ar2, e) w1 /\ holds ar2 es.
Proof.
  intros Hh Hnot Hns Hadd.
  pose proof (array_add_holds MAX_ELEMENTS ar es e w ar1 w1 Hh Hadd) as Hh1.
  destruct (array_remove_holds ar1 (es ++ [e]) (length es) e w1 Hh1)
    as (ar2 & Hrun & Hh2 & _).
  - rewrite length_app. simpl. lia.
  - rewrite lookup_app_r by lia. by rewrite Nat.sub_diag.
  - intros j Hj Hje. rewrite lookup_app_l in Hje by lia.
    apply Hnot. apply list_elem_of_lookup. by exists j.
  - left. rewrite length_app. simpl. lia.
  - exists ar2. split; [exact Hrun|].
    rewrite delete_take_drop in Hh2.
    rewrite take_app_length, drop_ge, app_nil_r in Hh2; [done|].
    rewrite length_app. simpl. lia.
Qed.

End RemovalByValue.

Lemma array_remove_spec_witness :
  (holds (default_array [10; 20; 10]) [10; 20; 10] /\
   Z.of_nat (length [10; 20; 10]) <= 2 ^ 64 - 1) /\
  array_remove (2 ^ 64 - 1) (default_array [10; 20; 10]) 30 []
  = Done (default_array [10; 20; 10], NULL) [] /\
  exists ar',
    array_remove (2 ^ 64 - 1) (default_array [10; 20; 10]) 10 [] = Done (ar', 10) [] /\
    holds ar' [20; 10] /\ capacity ar' = capacity (default_array [10; 20; 10]).
Proof.
  assert (Hh : holds (default_array [10; 20; 10]) [10; 20; 10])
    by (apply holds_default; simpl; lia).
  assert (Hns : Z.of_nat (length [10; 20; 10]) <= 2 ^ 64 - 1) by (simpl; lia).
  split; [by split|].
  destruct (array_remove_spec (2 ^ 64 - 1) (default_array [10; 20; 10]) [10; 20; 10] 10 []
              Hh Hns) as [_ Hfound].
  destruct (array_remove_spec (2 ^ 64 - 1) (default_array [10; 20; 10]) [10; 20; 10] 30 []
              Hh Hns) as [Habsent _].
  split.
  - apply Habsent. intros Hin. apply list_elem_of_In in Hin. simpl in Hin.
    destruct Hin as [?|[?|[?|[]]]]; discriminate.
  - apply (Hfound 0%nat eq_refl).
    + intros j Hj. lia.
    + right. reflexivity.
Defined.

Lemma array_add_remove_witness :
  (holds (default_array [10; 20]) [10; 20] /\
   Z.of_nat (length [10; 20]) < 2 ^ 64 - 1 /\
   array_add sample_ceiling (default_array [10; 20]) 30 []
   = Done (default_array [10; 20; 30], true) []) /\
  exists ar2,
    array_remove (2 ^ 64 - 1) (default_array [10; 20; 30]) 30 [] = Done (ar2, 30) [] /\
    holds ar2 [10; 20].
Proof.
  assert (Hh : holds (default_array [10; 20]) [10; 20]) by (apply holds_default; simpl; lia).
  assert (Hns : Z.of_nat (length [10; 20]) < 2 ^ 64 - 1) by (simpl; lia).
  assert (Hadd : array_add sample_ceiling (default_array [10; 20]) 30 []
                 = Done (default_array [10; 20; 30], true) []) by reflexivity.
  assert (Hnot : 30 ∉ [10; 20]).
  { intros Hin. apply list_elem_of_In in Hin. simpl in Hin.
    destruct Hin as [?|[?|[]]]; discriminate. }
  split; [by repeat split|].
  apply (array_add_remove (2 ^ 64 - 1) sample_ceiling (default_array [10; 20]) [10; 20] 30 []
           (default_array [10; 20; 30]) [] Hh Hnot Hns Hadd).
Defined.

(** ** Traversal by callback *)

Lemma foreach_loop_fold {St : Type} (op : ptr -> St -> St) l es2 : forall i s w,
  slots_from l i es2 ->
  Z.of_nat (i + length es2) <= SIZE_MAX ->
  foreach_loop op (Some l) (length es2) (Z.of_nat i) s w
  = Done (foldl (fun s x => op x s) s es2) w.
Proof.
  induction es2 as [|x es2 IH]; intros i s w Hsl Hmax; [reflexivity|].
  apply slots_from_cons in Hsl as [Hx Hsl]. simpl length in Hmax.
  cbn [length foreach_loop foldl]. unfold bind at 1.
  rewrite (load_Val l (Z.of_nat i) x) by (lia || by rewrite Nat2Z.id).
  rewrite size_add_succ by lia. by rewrite IH by (done || lia).
Qed.

(** X16. [array_foreach] calls the callback once on every element, from the
    first to the last: the state of the caller ends as the left fold of the
    callback over the elements. *)
Theorem array_foreach_spec {St : Type} ar es (op : ptr -> St -> St) s w :
  holds ar es ->
  array_foreach ar op s w = Done (foldl (fun s x => op x s) s es) w.
Proof.
  intros Hh. unfold array_foreach. pose proof Hh as [Hsz _].
  rewrite Hsz, Nat2Z.id.
  destruct es as [|e0 es0]; [reflexivity|].
  destruct (holds_buffer ar (e0 :: es0) Hh) as (l & Hl & _ & Hlen); [done|].
  pose proof (holds_length_le ar _ l Hh Hl) as Hle.
  rewrite Hl. change 0 with (Z.of_nat 0).
  rewrite foreach_loop_fold;
    [reflexivity | by eapply holds_slots_from | unfold sizeof_ptr, SIZE_MAX in *; lia].
Qed.

Lemma array_foreach_spec_witness :
  holds (default_array [10; 20; 30]) [10; 20; 30] /\
  array_foreach (default_array [10; 20; 30]) (fun x (s : list ptr) => x :: s) [] []
  = Done [30; 20; 10] [].
Proof.
  assert (Hh : holds (default_array [10; 20; 30]) [10; 20; 30])
    by (apply holds_default; simpl; lia).
  split; [exact Hh|].
  apply (array_foreach_spec (default_array [10; 20; 30]) [10; 20; 30]
           (fun x (s : list ptr) => x :: s) [] [] Hh).
Defined.

(** ** Copies *)

Lemma holds_blit_prefix ar es l n :
  holds ar es -> buffer ar = Some l ->
  take (length es) (blit (replicate n (Val NULL)) 0 l 0 (Z.of_nat (length es)))
  = Val <$> es.
Proof.
  intros Hh Hl. pose proof (holds_length_le ar es l Hh Hl) as Hle.
  rewrite <- (Nat2Z.id (length es)) at 1.
  rewrite take_blit_prefix by lia. rewrite Nat2Z.id.
  destruct Hh as [_ Hb]. rewrite Hl in Hb. by destruct Hb.
Qed.

(** X17. [array_copy_shallow], when the allocator serves both requests, returns
    an array with the same elements, size, capacity and growth factor as the
    original, in a buffer of its own of [capacity] slots. The original must
    have a buffer and a size within its capacity. *)
Theorem array_copy_shallow_spec ar es w :
  holds ar es -> within_capacity ar ->
  exists copy,
    array_copy_shallow ar (true :: true :: w) = Done copy w /\
    holds copy es /\
    size copy = size ar /\ capacity copy = capacity ar /\
    exp_factor copy = exp_factor ar /\
    (exists l, buffer copy = Some l /\ Z.of_nat (length l) = capacity ar).
Proof.
  intros Hh [Hsc Hcap].
  destruct (buffer ar) as [l|] eqn:Hl; [|done].
  pose proof (holds_length_le ar es l Hh Hl) as Hle.
  pose proof Hh as [Hsz Hb]. rewrite Hl in Hb. destruct Hb as [_ Hlen].
  unfold sizeof_ptr, SIZE_MAX in Hlen.
  assert (Hn : size_mul (size ar) sizeof_ptr / sizeof_ptr = Z.of_nat (length es))
    by (rewrite Hsz; apply size_mul_slots; unfold sizeof_ptr, SIZE_MAX; lia).
  unfold array_copy_shallow, bind, call_alloc_struct, call_calloc, bind, alloc_ok, ret.
  cbn [negb andb].
  destruct (Z.leb_spec (capacity ar * sizeof_ptr) SIZE_MAX) as [_|Hbad];
    [|unfold sizeof_ptr, SIZE_MAX in Hbad; lia].
  unfold memcpy. rewrite Hl.
  rewrite memmove_ok by (rewrite ?length_replicate, ?Hn; lia). rewrite Hn.
  eexists. split; [reflexivity|]. cbn [size capacity exp_factor buffer].
  assert (Hlb : length (blit (replicate (Z.to_nat (capacity ar)) (Val NULL)) 0 l 0
                             (Z.of_nat (length es))) = Z.to_nat (capacity ar))
    by (rewrite length_blit by (rewrite ?length_replicate; lia); apply length_replicate).
  split; [|repeat split; eexists; split; [reflexivity | rewrite Hlb; lia]].
  split; [done|]. cbn [buffer]. split.
  - by apply (holds_blit_prefix ar).
  - rewrite Hlb. unfold sizeof_ptr, SIZE_MAX. lia.
Qed.

Lemma array_copy_shallow_spec_witness :
  (holds (default_array [10; 20; 30]) [10; 20; 30] /\
   within_capacity (default_array [10; 20; 30])) /\
  exists copy,
    array_copy_shallow (default_array [10; 20; 30]) [true; true] = Done copy [] /\
    holds copy [10; 20; 30] /\
    size copy = 3 /\ capacity copy = 8.
Proof.
  assert (Hh : holds (default_array [10; 20; 30]) [10; 20; 30])
    by (apply holds_default; simpl; lia).
  assert (Hw : within_capacity (default_array [10; 20; 30]))
    by (split; vm_compute; discriminate).
  split; [by split|].
  destruct (array_copy_shallow_spec (default_array [10; 20; 30]) [10; 20; 30] [] Hh Hw)
    as (copy & Hrun & Hhc & Hs & Hc & _).
  exists copy. split; [exact Hrun|]. split; [exact Hhc|]. split; [exact Hs | exact Hc].
Defined.

(** X18. Neither [array_copy_shallow] nor [array_copy_deep] checks what the
    allocator returns: when the request for the buffer is refused, the copy
    of the elements goes through a null pointer. *)
Theorem array_copy_refused_buffer ar cp w :
  0 < size ar ->
  array_copy_shallow ar (true :: false :: w) = Undefined /\
  array_copy_deep ar cp (true :: false :: w) = Undefined.
Proof.
  intros Hsz. split; [reflexivity|].
  unfold array_copy_deep, bind, call_alloc_struct, call_calloc, bind, alloc_ok, ret.
  cbn [negb andb].
  destruct (Z.to_nat (size ar)) as [|n] eqn:Hn; [lia|].
  cbn [copy_deep_loop]. unfold bind.
  destruct (load (buffer ar) 0 w); reflexivity.
Qed.

Lemma array_copy_refused_buffer_witness :
  0 < size (default_array [10; 20; 30]) /\
  array_copy_shallow (default_array [10; 20; 30]) [true; false] = Undefined /\
  array_copy_deep (default_array [10; 20; 30]) (fun x => x + 1) [true; false] = Undefined.
Proof.
  assert (Hsz : 0 < size (default_array [10; 20; 30])) by reflexivity.
  split; [exact Hsz|].
  apply (array_copy_refused_buffer (default_array [10; 20; 30]) (fun x => x + 1) [] Hsz).
Defined.

Lemma copy_deep_loop_spec (cp : ptr -> ptr) l es2 : forall i d w,
  slots_from l i es2 ->
  (i + length es2 <= length d)%nat ->
  Z.of_nat (i + length es2) <= SIZE_MAX ->
  copy_deep_loop cp (Some l) (length es2) (Z.of_nat i) (Some d) w
  = Done (Some (take i d ++ (Val <$> (cp <$> es2)) ++ drop (i + length es2) d)) w.
Proof.
  induction es2 as [|x es2 IH]; intros i d w Hsl Hd Hmax.
  - simpl. rewrite Nat.add_0_r, take_drop. reflexivity.
  - apply slots_from_cons in Hsl as [Hx Hsl]. simpl length in *.
    cbn [length copy_deep_loop]. unfold bind at 1.
    rewrite (load_Val l (Z.of_nat i) x) by (lia || by rewrite Nat2Z.id).
    unfold bind at 1. rewrite store_ok by lia. rewrite Nat2Z.id.
    rewrite size_add_succ by lia.
    rewrite IH by (done || (rewrite ?length_insert; lia)).
    do 2 f_equal.
    rewrite (take_S_r _ i (Val (cp x))) by (apply list_lookup_insert_eq; lia).
    rewrite take_insert_ge by lia. rewrite drop_insert_lt by lia.
    rewrite <- app_assoc. cbn [fmap list_fmap app].
    replace (i + S (length es2))%nat with (S i + length es2)%nat by lia. reflexivity.
Qed.

(** X19. [array_copy_deep], when the allocator serves both requests, returns an
    array whose elements are the images of the original's elements under
    the copy function, in order, with the same size and capacity. *)
Theorem array_copy_deep_spec ar es (cp : ptr -> ptr) w :
  holds ar es -> within_capacity ar ->
  exists copy,
    array_copy_deep ar cp (true :: true :: w) = Done copy w /\
    holds copy (cp <$> es) /\
    size copy = size ar /\ capacity copy = capacity ar /\
    exp_factor copy = exp_factor ar.
Proof.
  intros Hh [Hsc Hcap].
  destruct (buffer ar) as [l|] eqn:Hl; [|done].
  pose proof (holds_length_le ar es l Hh Hl) as Hle.
  pose proof Hh as [Hsz Hb]. rewrite Hl in Hb. destruct Hb as [_ Hlen].
  unfold sizeof_ptr, SIZE_MAX in Hlen.
  unfold array_copy_deep, bind, call_alloc_struct, call_calloc, bind, alloc_ok, ret.
  cbn [negb andb].
  destruct (Z.leb_spec (capacity ar * sizeof_ptr) SIZE_MAX) as [_|Hbad];
    [|unfold sizeof_ptr, SIZE_MAX in Hbad; lia].
  rewrite Hl, Hsz, Nat2Z.id. change 0 with (Z.of_nat 0) at 1.
  rewrite copy_deep_loop_spec
    by (by eapply holds_slots_from || (rewrite ?length_replicate; unfold SIZE_MAX; lia)).
  rewrite take_0, app_nil_l, Nat.add_0_l.
  eexists. split; [reflexivity|]. cbn [size capacity exp_factor buffer].
  split; [|by repeat split].
  split; cbn [size buffer]; [by rewrite length_fmap|].
  rewrite length_fmap. split.
  - rewrite take_app_length'; [done | by rewrite !length_fmap].
  - rewrite length_app, !length_fmap, length_drop, length_replicate.
    unfold sizeof_ptr, SIZE_MAX. lia.
Qed.

Lemma array_copy_deep_spec_witness :
  (holds (default_array [10; 20; 30]) [10; 20; 30] /\
   within_capacity (default_array [10; 20; 30])) /\
  exists copy,
    array_copy_deep (default_array [10; 20; 30]) (fun x => x + 1) [true; true] = Done copy [] /\
    holds copy [11; 21; 31].
Proof.
  assert (Hh : holds (default_array [10; 20; 30]) [10; 20; 30])
    by (apply holds_default; simpl; lia).
  assert (Hw : within_capacity (default_array [10; 20; 30]))
    by (split; vm_compute; discriminate).
  split; [by split|].
  destruct (array_copy_deep_spec (default_array [10; 20; 30]) [10; 20; 30]
              (fun x => x + 1) [] Hh Hw) as (copy & Hrun & Hhc & _).
  exists copy. split; [exact Hrun | exact Hhc].
Defined.

(** ** Trimming a non-empty array *)

(** X20. On a non-empty array with slack, [array_trim_capacity], when the
    allocator serves the request, keeps the elements and leaves a buffer of
    exactly [size] slots, with the capacity equal to the size. *)
Theorem array_trim_capacity_spec ar es w :
  holds ar es -> es <> [] -> size ar <> capacity ar ->
  exists ar',
    array_trim_capacity ar (true :: w) = Done ar' w /\
    holds ar' es /\
    capacity ar' = size ar /\ size ar' = size ar /\
    buffer ar' = Some (Val <$> es).
Proof.
  intros Hh Hne Hslack.
  destruct (holds_buffer ar es Hh Hne) as (l & Hl & Htake & Hlen).
  pose proof (holds_length_le ar es l Hh Hl) as Hle.
  pose proof Hh as [Hsz _]. unfold sizeof_ptr, SIZE_MAX in Hlen.
  assert (Hpos : (0 < length es)%nat) by (destruct es; [done | simpl; lia]).
  unfold array_trim_capacity, bind, call_calloc, bind, alloc_ok, ret.
  destruct (Z.eqb_spec (size ar) (capacity ar)); [done|]. cbn [andb].
  destruct (Z.leb_spec (size ar * sizeof_ptr) SIZE_MAX) as [_|Hbad];
    [|unfold sizeof_ptr, SIZE_MAX in Hbad; lia].
  destruct (Z.ltb_spec (size ar) 1); [lia|].
  assert (Hn : size_mul (size ar) sizeof_ptr / sizeof_ptr = Z.of_nat (length es))
    by (rewrite Hsz; apply size_mul_slots; unfold sizeof_ptr, SIZE_MAX; lia).
  unfold memcpy. rewrite Hl.
  rewrite memmove_ok by (rewrite ?length_replicate, ?Hn; lia). rewrite Hn.
  unfold call_free, ret.
  assert (Hb : blit (replicate (Z.to_nat (size ar)) (Val NULL)) 0 l 0 (Z.of_nat (length es))
               = Val <$> es).
  { unfold blit. cbn [Z.to_nat take app]. rewrite drop_0, Nat2Z.id, Htake.
    rewrite drop_replicate, Z.add_0_l, Hsz, Nat.sub_diag. cbn [replicate].
    by rewrite app_nil_r. }
  rewrite Hb.
  eexists. split; [reflexivity|]. cbn [size capacity buffer set_capacity set_buffer].
  split; [|done].
  split; cbn [size buffer]; [done|]. split.
  - rewrite firstn_all2; [done | by rewrite length_fmap].
  - rewrite length_fmap. unfold sizeof_ptr, SIZE_MAX. lia.
Qed.

Lemma array_trim_capacity_spec_witness :
  holds (default_array [10; 20; 30]) [10; 20; 30] /\
  exists ar',
    array_trim_capacity (default_array [10; 20; 30]) [true] = Done ar' [] /\
    holds ar' [10; 20; 30] /\
    capacity ar' = 3 /\ size ar' = 3 /\
    buffer ar' = Some [Val 10; Val 20; Val 30].
Proof.
  assert (Hh : holds (default_array [10; 20; 30]) [10; 20; 30])
    by (apply holds_default; simpl; lia).
  split; [exact Hh|].
  apply (array_trim_capacity_spec (default_array [10; 20; 30]) [10; 20; 30] [] Hh);
    [discriminate | vm_compute; discriminate].
Defined.

(** ** Subranges inside the array *)

Lemma array_subarray_run ar l b e w :
  buffer ar = Some l ->
  0 <= b <= e -> e <= size ar -> e < Z.of_nat (length l) ->
  Z.of_nat (length l) * sizeof_ptr <= SIZE_MAX ->
  array_subarray ar b e (true :: true :: w)
  = Done (Some (mkArray (e - b + 1) (e - b + 1) float_zero
                        (Some (take (Z.to_nat (e - b + 1)) (drop (Z.to_nat b) l)))
                        (mem_alloc ar) (mem_calloc ar) (mem_free ar))) w.
Proof.
  intros Hbuf Hb He Hlen Hmax. unfold sizeof_ptr, SIZE_MAX in Hmax.
  assert (Hn : size_add (size_sub e b) 1 = e - b + 1).
  { unfold size_add, size_sub. rewrite !wrap_small; unfold SIZE_MAX; try lia.
    rewrite wrap_small; unfold SIZE_MAX; lia. }
  assert (Hslots : size_mul (e - b + 1) sizeof_ptr / sizeof_ptr = e - b + 1)
    by (apply size_mul_slots; unfold sizeof_ptr, SIZE_MAX; lia).
  unfold array_subarray, bind.
  replace ((e <? b) || (size ar <? e)) with false
    by (symmetry; apply orb_false_iff; split; lia).
  cbn [call_alloc_struct alloc_ok negb].
  cbn [set_allocators set_size set_capacity set_buffer zeroed_Array
       size capacity exp_factor buffer mem_alloc mem_calloc mem_free].
  rewrite Hn. unfold call_alloc, bind. cbn [alloc_ok ret]. rewrite Hslots, Hbuf.
  unfold memcpy.
  rewrite memmove_ok by (rewrite ?length_replicate, ?Hslots; lia).
  rewrite Hslots. unfold blit. cbn [take Z.to_nat app].
  rewrite drop_replicate, Z.add_0_l, Nat.sub_diag. cbn [replicate].
  rewrite app_nil_r. reflexivity.
Qed.

(** X21. For a range [b <= e] inside the array, [array_subarray], when the
    allocator serves both requests, returns a new array that holds the
    elements at the indices [b] to [e] in order; its size and capacity are
    [e - b + 1] and its allocators are those of the original. *)
Theorem array_subarray_inside_spec ar es b e w :
  holds ar es -> (b <= e)%nat -> (e < length es)%nat ->
  exists sub,
    array_subarray ar (Z.of_nat b) (Z.of_nat e) (true :: true :: w) = Done (Some sub) w /\
    holds sub (take (e - b + 1) (drop b es)) /\
    size sub = Z.of_nat (e - b + 1) /\ capacity sub = Z.of_nat (e - b + 1) /\
    mem_alloc sub = mem_alloc ar /\ mem_calloc sub = mem_calloc ar /\
    mem_free sub = mem_free ar.
Proof.
  intros Hh Hbe He.
  destruct (holds_buffer ar es Hh) as (l & Hl & Htake & Hlen);
    [intros ->; simpl in He; lia|].
  pose proof (holds_length_le ar es l Hh Hl) as Hle.
  pose proof Hh as [Hsz _].
  rewrite (array_subarray_run ar l (Z.of_nat b) (Z.of_nat e) w Hl) by lia.
  replace (Z.of_nat e - Z.of_nat b + 1) with (Z.of_nat (e - b + 1)) by lia.
  rewrite !Nat2Z.id.
  eexists. split; [reflexivity|]. split; [|by repeat split].
  assert (Hlsub : length (take (e - b + 1) (drop b es)) = (e - b + 1)%nat)
    by (rewrite length_take, length_drop; lia).
  unfold sizeof_ptr, SIZE_MAX in Hlen.
  split; cbn [size buffer]; [by rewrite Hlsub|]. rewrite Hlsub. split.
  - rewrite take_take, Nat.min_id.
    rewrite !take_drop_commute, fmap_drop, fmap_take. f_equal.
    rewrite <- Htake, take_take. f_equal. lia.
  - rewrite length_take, length_drop. unfold sizeof_ptr, SIZE_MAX. lia.
Qed.

Lemma array_subarray_inside_spec_witness :
  holds (default_array [10; 20; 30; 40]) [10; 20; 30; 40] /\
  exists sub,
    array_subarray (default_array [10; 20; 30; 40]) 1 2 [true; true] = Done (Some sub) [] /\
    holds sub [20; 30] /\ size sub = 2 /\ capacity sub = 2.
Proof.
  assert (Hh : holds (default_array [10; 20; 30; 40]) [10; 20; 30; 40])
    by (apply holds_default; simpl; lia).
  split; [exact Hh|].
  destruct (array_subarray_inside_spec (default_array [10; 20; 30; 40]) [10; 20; 30; 40]
              1%nat 2%nat [] Hh) as (sub & Hrun & Hhs & Hs & Hc & _);
    [lia | simpl; lia |].
  exists sub. split; [exact Hrun|]. split; [exact Hhs|]. split; [exact Hs | exact Hc].
Defined.

(** ** Traversal with a cursor *)

Lemma array_iter_next_holds ar es i e w :
  holds ar es -> es !! i = Some e ->
  array_iter_has_next (mkArrayIter ar (Z.of_nat i)) = true /\
  array_iter_next (mkArrayIter ar (Z.of_nat i)) w
  = Done (mkArrayIter ar (Z.of_nat (S i)), e) w.
Proof.
  intros Hh He. pose proof (lookup_lt_Some _ _ _ He) as Hi.
  pose proof (holds_size_bound ar es Hh) as Hmax. unfold sizeof_ptr, SIZE_MAX in Hmax.
  pose proof Hh as [Hsz _]. split.
  - unfold array_iter_has_next. cbn [iter_ar iter_index]. lia.
  - unfold array_iter_next, bind. cbn [iter_ar iter_index].
    rewrite (holds_load ar es i e w Hh He).
    rewrite size_add_succ by (unfold SIZE_MAX; lia). reflexivity.
Qed.

Lemma array_iter_drain_from ar es w : holds ar es ->
  forall k i fuel, (i + k = length es)%nat -> (k <= fuel)%nat ->
  array_iter_drain fuel (mkArrayIter ar (Z.of_nat i)) w = Done (drop i es) w.
Proof.
  intros Hh. induction k as [|k IH]; intros i fuel Hik Hfuel.
  - rewrite drop_ge by lia. destruct Hh as [Hsz _].
    destruct fuel; [reflexivity|]. cbn [array_iter_drain].
    unfold array_iter_has_next. cbn [iter_ar iter_index].
    destruct (Z.ltb_spec (Z.of_nat i) (size ar)); [lia | reflexivity].
  - destruct fuel as [|fuel]; [lia|].
    destruct (lookup_lt_is_Some_2 es i) as [e He]; [lia|].
    destruct (array_iter_next_holds ar es i e w Hh He) as [Hhas Hnext].
    cbn [array_iter_drain]. rewrite Hhas. unfold bind at 1. rewrite Hnext.
    unfold bind. rewrite IH by lia. unfold ret.
    by rewrite (drop_S es e i He).
Qed.

(** X22. A cursor started on an array and advanced while [array_iter_has_next]
    holds yields every element once, in order, and then stops. *)
Theorem array_iter_drain_spec ar es fuel w :
  holds ar es -> (length es <= fuel)%nat ->
  array_iter_drain fuel (array_iter_init ar) w = Done es w.
Proof.
  intros Hh Hfuel. unfold array_iter_init. change 0 with (Z.of_nat 0).
  by rewrite (array_iter_drain_from ar es w Hh (length es) 0%nat fuel).
Qed.

Lemma array_iter_drain_spec_witness :
  (holds (default_array [10; 20; 30]) [10; 20; 30] /\ (length [10; 20; 30] <= 5)%nat) /\
  array_iter_drain 5 (array_iter_init (default_array [10; 20; 30])) [] = Done [10; 20; 30] [].
Proof.
  assert (Hh : holds (default_array [10; 20; 30]) [10; 20; 30])
    by (apply holds_default; simpl; lia).
  assert (Hf : (length [10; 20; 30] <= 5)%nat) by (simpl; lia).
  split; [by split|].
  apply (array_iter_drain_spec (default_array [10; 20; 30]) [10; 20; 30] 5%nat [] Hh Hf).
Defined.

(** X23. After the cursor has yielded the element at index [i],
    [array_iter_remove] removes that element and returns it, but leaves the
    index of the cursor where it was: the next [array_iter_next] yields the
    element that was at index [i + 2], and the one that was at [i + 1] is
    never yielded. *)
Theorem array_iter_remove_skips ar es i a c w :
  holds ar es -> es !! i = Some a -> es !! S (S i) = Some c ->
  has_spare_slot ar ->
  exists ar',
    array_iter_next (mkArrayIter ar (Z.of_nat i)) w
    = Done (mkArrayIter ar (Z.of_nat (S i)), a) w /\
    array_iter_remove (mkArrayIter ar (Z.of_nat (S i))) w
    = Done (mkArrayIter ar' (Z.of_nat (S i)), a) w /\
    holds ar' (delete i es) /\
    array_iter_next (mkArrayIter ar' (Z.of_nat (S i))) w
    = Done (mkArrayIter ar' (Z.of_nat (S (S i))), c) w.
Proof.
  intros Hh Ha Hc Hroom.
  pose proof (holds_size_bound ar es Hh) as Hmax. unfold sizeof_ptr, SIZE_MAX in Hmax.
  pose proof (lookup_lt_Some _ _ _ Hc) as Hi.
  destruct (array_remove_at_holds ar es i a w Hh Ha (or_intror Hroom))
    as (ar' & Hrun & Hh' & _).
  exists ar'. split; [apply (array_iter_next_holds ar es i a w Hh Ha)|]. split.
  - unfold array_iter_remove, bind. cbn [iter_ar iter_index].
    replace (size_sub (Z.of_nat (S i)) 1) with (Z.of_nat i)
      by (unfold size_sub; rewrite wrap_small; unfold SIZE_MAX; lia).
    rewrite Hrun. reflexivity.
  - split; [exact Hh'|].
    apply (array_iter_next_holds ar' (delete i es) (S i) c w Hh').
    by rewrite list_lookup_delete_ge by lia.
Qed.

Lemma array_iter_remove_skips_witness :
  (holds (default_array [10; 20; 30]) [10; 20; 30] /\
   has_spare_slot (default_array [10; 20; 30])) /\
  exists ar',
    array_iter_next (mkArrayIter (default_array [10; 20; 30]) 0) []
    = Done (mkArrayIter (default_array [10; 20; 30]) 1, 10) [] /\
    array_iter_remove (mkArrayIter (default_array [10; 20; 30]) 1) []
    = Done (mkArrayIter ar' 1, 10) [] /\
    holds ar' [20; 30] /\
    array_iter_next (mkArrayIter ar' 1) [] = Done (mkArrayIter ar' 2, 30) [].
Proof.
  assert (Hh : holds (default_array [10; 20; 30]) [10; 20; 30])
    by (apply holds_default; simpl; lia).
  assert (Hs : has_spare_slot (default_array [10; 20; 30])) by reflexivity.
  split; [by split|].
  apply (array_iter_remove_skips (default_array [10; 20; 30]) [10; 20; 30] 0%nat 10 30 []
           Hh eq_refl eq_refl Hs).
Defined.

(** X24. After the cursor has yielded the element at index [i],
    [array_iter_replace] does not touch that element: it replaces the
    element at index [i + 1], the next one to be yielded, and returns the
    handle that was there. *)
Theorem array_iter_replace_next ar es i a b element w :
  holds ar es -> es !! i = Some a -> es !! S i = Some b ->
  exists ar',
    array_iter_next (mkArrayIter ar (Z.of_nat i)) w
    = Done (mkArrayIter ar (Z.of_nat (S i)), a) w /\
    array_iter_replace (mkArrayIter ar (Z.of_nat (S i))) element w
    = Done (mkArrayIter ar' (Z.of_nat (S i)), b) w /\
    holds ar' (<[S i := element]> es).
Proof.
  intros Hh Ha Hb.
  destruct (array_replace_at_holds ar es (S i) b element w Hh Hb) as (ar' & Hrun & Hh' & _).
  exists ar'. split; [apply (array_iter_next_holds ar es i a w Hh Ha)|]. split; [|exact Hh'].
  unfold array_iter_replace, bind. cbn [iter_ar iter_index]. rewrite Hrun. reflexivity.
Qed.

Lemma array_iter_replace_next_witness :
  holds (default_array [10; 20; 30]) [10; 20; 30] /\
  exists ar',
    array_iter_next (mkArrayIter (default_array [10; 20; 30]) 0) []
    = Done (mkArrayIter (default_array [10; 20; 30]) 1, 10) [] /\
    array_iter_replace (mkArrayIter (default_array [10; 20; 30]) 1) 77 []
    = Done (mkArrayIter ar' 1, 20) [] /\
    holds ar' [10; 77; 30].
Proof.
  assert (Hh : holds (default_array [10; 20; 30]) [10; 20; 30])
    by (apply holds_default; simpl; lia).
  split; [exact Hh|].
  apply (array_iter_replace_next (default_array [10; 20; 30]) [10; 20; 30] 0%nat 10 20 77 []
           Hh eq_refl eq_refl).
Defined.

(** ** Construction *)

(** X25. An array that [array_new_conf] returns is empty, has the capacity and
    the allocators of the configuration, and the factor of the
    configuration unless that is at most 1, in which case it has the
    default factor 2. A factor above 1 is only accepted for a capacity other
    than 0 and when it is below [MAX_ELEMENTS / capacity]. *)
Theorem array_new_conf_fresh MAX_ELEMENTS conf w ar w' :
  array_new_conf MAX_ELEMENTS conf w = Done (Some ar) w' ->
  size ar = 0 /\ capacity ar = conf_capacity conf /\
  mem_alloc ar = conf_mem_alloc conf /\ mem_calloc ar = conf_mem_calloc conf /\
  mem_free ar = conf_mem_free conf /\
  exp_factor ar = (if float_le (conf_exp_factor conf) (float_of_Z 1)
                   then float_of_Z DEFAULT_EXPANSION_FACTOR
                   else conf_exp_factor conf) /\
  (float_le (conf_exp_factor conf) (float_of_Z 1) = false ->
   conf_capacity conf <> 0 /\
   float_le (float_of_Z (MAX_ELEMENTS / conf_capacity conf)) (conf_exp_factor conf) = false).
Proof.
  unfold array_new_conf. intros H. inv_bind H.
  destruct a; cbn [negb] in H; [|by inv_ret H]. cbv zeta in H.
  destruct (float_le (conf_exp_factor conf) (float_of_Z 1)) eqn:Hle.
  - inv_bind H. inv_ret H. injection H as <-. by repeat split.
  - destruct (Z.eqb_spec (conf_capacity conf) 0) as [|Hne]; [discriminate|].
    destruct (float_le (float_of_Z _) _) eqn:Hguard; [by inv_ret H|].
    inv_bind H. inv_ret H. injection H as <-. by repeat split.
Qed.

Lemma array_new_conf_fresh_witness :
  array_new_conf sample_ceiling array_conf_init [] = Done (Some (default_array [])) [] /\
  size (default_array []) = 0 /\
  capacity (default_array []) = conf_capacity array_conf_init /\
  exp_factor (default_array []) = float_of_Z 2.
Proof.
  assert (Hrun : array_new_conf sample_ceiling array_conf_init []
                 = Done (Some (default_array [])) []) by (vm_compute; reflexivity).
  split; [exact Hrun|].
  destruct (array_new_conf_fresh sample_ceiling array_conf_init [] (default_array []) [] Hrun)
    as (Hs & Hc & _ & _ & _ & Hf & _).
  split; [exact Hs|]. split; [exact Hc | exact Hf].
Defined.



(** ** Reversal of arrays of odd size *)

(** [k] iterations of the loop of [array_reverse] from the indices [i] and
    [j] mirror the [k] slots from [i] upwards with the [k] slots from [j]
    downwards, and leave every other slot alone. *)
Lemma reverse_loop_spec k : forall i j l w,
  (i + 2 * k <= j + 1)%nat -> (j < length l)%nat ->
  Z.of_nat (length l) <= SIZE_MAX ->
  (forall p, (i <= p < i + k \/ (j < p + k /\ p <= j))%nat ->
             exists v, l !! p = Some (Val v)) ->
  exists l',
    reverse_loop k (Z.of_nat i) (Z.of_nat j) (Some l) w = Done (Some l') w /\
    length l' = length l /\
    (forall p, (i <= p < i + k \/ (j < p + k /\ p <= j))%nat ->
               l' !! p = l !! (i + j - p)%nat) /\
    (forall p, ~ (i <= p < i + k \/ (j < p + k /\ p <= j))%nat -> l' !! p = l !! p).
Proof.
  induction k as [|k IH]; intros i j l w Hij Hj Hmax Hval.
  - exists l. split; [reflexivity|]. split; [done|]. split; [|done].
    intros p Hp. lia.
  - destruct (Hval i) as [x Hx]; [lia|]. destruct (Hval j) as [y Hy]; [lia|].
    cbn [reverse_loop]. unfold bind at 1.
    rewrite (load_Val l (Z.of_nat i) x) by (lia || by rewrite Nat2Z.id).
    unfold bind at 1.
    rewrite (load_Val l (Z.of_nat j) y) by (lia || by rewrite Nat2Z.id).
    unfold bind at 1. rewrite store_ok by lia.
    unfold bind at 1. rewrite store_ok by (rewrite length_insert; lia).
    rewrite !Nat2Z.id.
    set (l2 := <[j := Val x]> (<[i := Val y]> l)).
    assert (Hl2 : length l2 = length l) by (subst l2; by rewrite !length_insert).
    assert (Hother : forall p, p <> i -> p <> j -> l2 !! p = l !! p).
    { intros p Hpi Hpj. subst l2. by rewrite !list_lookup_insert_ne. }
    assert (Hl2i : l2 !! i = Some (Val y)).
    { subst l2. rewrite list_lookup_insert_ne by lia.
      apply list_lookup_insert_eq. lia. }
    assert (Hl2j : l2 !! j = Some (Val x)).
    { subst l2. apply list_lookup_insert_eq. rewrite length_insert. lia. }
    replace (size_add (Z.of_nat i) 1) with (Z.of_nat (S i))
      by (unfold size_add; rewrite wrap_small; lia).
    replace (size_sub (Z.of_nat j) 1) with (Z.of_nat (j - 1))
      by (unfold size_sub; rewrite wrap_small; lia).
    destruct (IH (S i) (j - 1)%nat l2 w) as (l' & Hrun & Hlen & Hin & Hout);
      [lia | lia | lia | |].
    { intros p Hp. rewrite Hother by lia. apply Hval. lia. }
    exists l'. split; [exact Hrun|]. split; [lia|]. split.
    + intros p Hp.
      destruct (decide (p = i)) as [->|Hpi];
        [rewrite Hout by lia; rewrite Hl2i, <- Hy; f_equal; lia|].
      destruct (decide (p = j)) as [->|Hpj];
        [rewrite Hout by lia; rewrite Hl2j, <- Hx; f_equal; lia|].
      rewrite Hin by lia. rewrite Hother by lia. f_equal. lia.
    + intros p Hp. rewrite Hout by lia. apply Hother; lia.
Qed.

(** X27. On an array with an odd number of elements [array_reverse] reverses
    the order of the elements; size, capacity and the slots behind the
    elements are untouched. *)
Theorem array_reverse_odd ar es m w :
  holds ar es -> length es = (2 * m + 1)%nat ->
  exists ar',
    array_reverse ar w = Done ar' w /\
    holds ar' (reverse es) /\
    size ar' = size ar /\ capacity ar' = capacity ar.
Proof.
  intros Hh Hodd.
  destruct (holds_buffer ar es Hh) as (l & Hl & Htake & Hlen);
    [intros ->; simpl in Hodd; lia|].
  pose proof (holds_length_le ar es l Hh Hl) as Hle.
  pose proof Hh as [Hsz _]. unfold sizeof_ptr, SIZE_MAX in Hlen.
  assert (Hsub : size_sub (size ar) 1 = Z.of_nat (2 * m))
    by (unfold size_sub; rewrite wrap_small; unfold SIZE_MAX; lia).
  unfold array_reverse, bind. rewrite Hsub, Hl.
  replace (Z.to_nat (Z.of_nat (2 * m) / 2)) with m
    by (rewrite Nat2Z.inj_mul, Z.mul_comm, Z.div_mul by lia; lia).
  change 0 with (Z.of_nat 0).
  destruct (reverse_loop_spec m 0%nat (2 * m)%nat l w) as (l' & Hrun & Hlen' & Hin & Hout);
    [lia | lia | unfold SIZE_MAX; lia | |].
  { intros p Hp. destruct (lookup_lt_is_Some_2 es p) as [x Hx]; [lia|].
    exists x. by eapply holds_lookup. }
  rewrite Hrun. eexists. split; [reflexivity|]. split; [|done].
  split; cbn [size buffer set_buffer]; [by rewrite length_reverse|].
  rewrite length_reverse. split; [|rewrite Hlen'; unfold sizeof_ptr, SIZE_MAX; lia].
  apply list_eq. intros p.
  destruct (decide (p < length es)%nat) as [Hp|Hp].
  - rewrite lookup_take_lt by done. rewrite list_lookup_fmap, reverse_lookup by done.
    assert (Hmirror : l' !! p = l !! (length es - S p)%nat).
    { destruct (decide (p = m)) as [->|Hpm].
      - rewrite Hout by lia. f_equal. lia.
      - rewrite Hin by lia. f_equal. lia. }
    rewrite Hmirror.
    destruct (lookup_lt_is_Some_2 es (length es - S p)) as [x Hx]; [lia|].
    rewrite Hx. by eapply holds_lookup.
  - rewrite lookup_take_ge by lia.
    rewrite lookup_ge_None_2; [done | rewrite length_fmap, length_reverse; lia].
Qed.

Lemma array_reverse_odd_witness :
  (holds (default_array [10; 20; 30; 40; 50]) [10; 20; 30; 40; 50] /\
   length [10; 20; 30; 40; 50] = (2 * 2 + 1)%nat) /\
  exists ar',
    array_reverse (default_array [10; 20; 30; 40; 50]) [] = Done ar' [] /\
    holds ar' [50; 40; 30; 20; 10].
Proof.
  assert (Hh : holds (default_array [10; 20; 30; 40; 50]) [10; 20; 30; 40; 50])
    by (apply holds_default; simpl; lia).
  split; [by split|].
  destruct (array_reverse_odd (default_array [10; 20; 30; 40; 50]) [10; 20; 30; 40; 50]
              2%nat [] Hh eq_refl) as (ar' & Hrun & Hh' & _).
  exists ar'. split; [exact Hrun | exact Hh'].
Defined.

(** X28. On an array with an even number of elements [array_reverse] mirrors
    all elements but the two in the middle, which stay where they are. *)
Theorem array_reverse_even ar es m w :
  holds ar es -> length es = (2 * m + 2)%nat ->
  exists ar',
    array_reverse ar w = Done ar' w /\
    array_size ar' = array_size ar /\
    (forall p x, p <> m -> p <> S m -> (p < length es)%nat ->
                 es !! (length es - S p)%nat = Some x ->
                 array_get ar' (Z.of_nat p) w = Done x w) /\
    (forall p x, p = m \/ p = S m -> es !! p = Some x ->
                 array_get ar' (Z.of_nat p) w = Done x w).
Proof.
  intros Hh Heven.
  destruct (holds_buffer ar es Hh) as (l & Hl & Htake & Hlen);
    [intros ->; simpl in Heven; lia|].
  pose proof (holds_length_le ar es l Hh Hl) as Hle.
  pose proof Hh as [Hsz _]. unfold sizeof_ptr, SIZE_MAX in Hlen.
  assert (Hsub : size_sub (size ar) 1 = Z.of_nat (2 * m + 1))
    by (unfold size_sub; rewrite wrap_small; unfold SIZE_MAX; lia).
  unfold array_reverse, bind. rewrite Hsub, Hl.
  replace (Z.to_nat (Z.of_nat (2 * m + 1) / 2)) with m.
  2:{ replace (Z.of_nat (2 * m + 1)) with (1 + Z.of_nat m * 2) by lia.
      rewrite Z.div_add by lia. change (1 / 2) with 0. lia. }
  change 0 with (Z.of_nat 0).
  destruct (reverse_loop_spec m 0%nat (2 * m + 1)%nat l w)
    as (l' & Hrun & Hlen' & Hin & Hout); [lia | lia | unfold SIZE_MAX; lia | |].
  { intros p Hp. destruct (lookup_lt_is_Some_2 es p) as [x Hx]; [lia|].
    exists x. by eapply holds_lookup. }
  rewrite Hrun. eexists. split; [reflexivity|]. split; [reflexivity|].
  unfold array_get. cbn [size buffer set_buffer].
  split; intros p x Hp.
  - intros Hp' Hlt Hx.
    destruct (Z.leb_spec (size ar) (Z.of_nat p)); [lia|].
    apply load_Val; [lia|]. rewrite Nat2Z.id, Hin by lia.
    replace (0 + (2 * m + 1) - p)%nat with (length es - S p)%nat by lia.
    by eapply holds_lookup.
  - intros Hx. pose proof (lookup_lt_Some _ _ _ Hx).
    destruct (Z.leb_spec (size ar) (Z.of_nat p)); [lia|].
    apply load_Val; [lia|]. rewrite Nat2Z.id, Hout by lia.
    by eapply holds_lookup.
Qed.

Lemma array_reverse_even_witness :
  (holds (default_array [10; 20; 30; 40]) [10; 20; 30; 40] /\
   length [10; 20; 30; 40] = (2 * 1 + 2)%nat) /\
  exists ar',
    array_reverse (default_array [10; 20; 30; 40]) [] = Done ar' [] /\
    array_get ar' 0 [] = Done 40 [] /\
    array_get ar' 1 [] = Done 20 [] /\
    array_get ar' 2 [] = Done 30 [] /\
    array_get ar' 3 [] = Done 10 [].
Proof.
  assert (Hh : holds (default_array [10; 20; 30; 40]) [10; 20; 30; 40])
    by (apply holds_default; simpl; lia).
  split; [by split|].
  destruct (array_reverse_even (default_array [10; 20; 30; 40]) [10; 20; 30; 40]
              1%nat [] Hh eq_refl) as (ar' & Hrun & _ & Hmirror & Hmid).
  exists ar'. split; [exact Hrun|]. repeat split.
  - apply (Hmirror 0%nat 40); [lia | lia | simpl; lia | reflexivity].
  - apply (Hmid 1%nat 20); [by left | reflexivity].
  - apply (Hmid 2%nat 30); [by right | reflexivity].
  - apply (Hmirror 3%nat 10); [lia | lia | simpl; lia | reflexivity].
Defined.

(** ** Growth *)

Section GrowthSuccess.

Variable MAX_ELEMENTS : Z.

(** X29. A full array below the ceiling grows when the allocator serves the
    request: if the product of capacity and factor, cut to an integer, is a
    capacity [nc] above the size whose byte count fits [size_t], then
    [array_add] reports success, appends the handle, and leaves capacity
    [nc] over a buffer of [nc] slots. *)
Theorem array_add_grows ar es l e nc w :
  holds ar es -> buffer ar = Some l ->
  capacity ar <= size ar -> capacity ar <> MAX_ELEMENTS ->
  size_of_float (float_mul (float_of_Z (capacity ar)) (exp_factor ar)) = Some nc ->
  size ar < nc -> nc * sizeof_ptr <= SIZE_MAX ->
  exists ar',
    array_add MAX_ELEMENTS ar e (true :: w) = Done (ar', true) w /\
    holds ar' (es ++ [e]) /\
    capacity ar' = nc /\
    (exists l', buffer ar' = Some l' /\ Z.of_nat (length l') = nc).
Proof.
  intros Hh Hl Hfull Hne Hnc Hlt Hmax.
  pose proof (holds_length_le ar es l Hh Hl) as Hle.
  pose proof Hh as [Hsz _].
  assert (Hslots : size_mul nc sizeof_ptr / sizeof_ptr = nc)
    by (apply size_mul_slots; lia).
  assert (Hn : size_mul (size ar) sizeof_ptr / sizeof_ptr = size ar)
    by (apply size_mul_slots; unfold sizeof_ptr in *; lia).
  assert (Hrun : exists l',
    array_add MAX_ELEMENTS ar e (true :: w)
    = Done (set_size (set_buffer (set_capacity ar nc) (Some l')) (size_add (size ar) 1), true) w
    /\ Z.of_nat (length l') = nc).
  { unfold array_add, bind.
    destruct (Z.leb_spec (capacity ar) (size ar)); [|lia].
    unfold expand_capacity.
    destruct (Z.eqb_spec (capacity ar) MAX_ELEMENTS); [done|].
    rewrite Hnc. cbv zeta.
    destruct (Z.leb_spec nc (capacity ar)); [lia|].
    unfold bind, call_alloc, bind, alloc_ok, ret. cbn [negb mem_alloc set_capacity].
    unfold memcpy. cbn [buffer size set_capacity]. rewrite Hl, Hslots.
    rewrite memmove_ok by (rewrite ?length_replicate, ?Hn; lia).
    unfold call_free, ret. cbn [negb buffer size set_buffer].
    change (size (set_capacity ar nc)) with (size ar). rewrite Hn.
    rewrite store_ok
      by (rewrite length_blit by (rewrite ?length_replicate; lia);
          rewrite length_replicate; lia).
    eexists. split; [reflexivity|].
    rewrite length_insert, length_blit by (rewrite ?length_replicate; lia).
    rewrite length_replicate. lia. }
  destruct Hrun as (l' & Hrun & Hlen').
  eexists. split; [exact Hrun|]. split; [|split; [reflexivity|]].
  - eapply array_add_holds; [exact Hh | exact Hrun].
  - exists l'. by split.
Qed.

Lemma size_of_float_range x n : size_of_float x = Some n -> 0 <= n <= SIZE_MAX.
Proof.
  destruct x as [s| s | |s m e]; simpl; try discriminate.
  - intros [= <-]. unfold SIZE_MAX. lia.
  - pose proof (proj2 (Z.shiftl_nonneg (Z.pos m) e) ltac:(lia)) as Hnn.
    destruct s.
    + destruct (_ =? _); [|discriminate]. intros [= <-]. unfold SIZE_MAX. lia.
    + destruct (Z.leb_spec (Z.shiftl (Z.pos m) e) SIZE_MAX); [|discriminate].
      intros [= <-]. lia.
Qed.

(** X30. A successful [array_add] keeps the array within its capacity: the size
    does not exceed the capacity and the buffer has at least as many slots
    as the capacity says, provided the byte count of the new capacity fits
    [size_t]. *)
Theorem array_add_within_capacity ar es e w ar' w' :
  holds ar es -> within_capacity ar ->
  array_add MAX_ELEMENTS ar e w = Done (ar', true) w' ->
  capacity ar' * sizeof_ptr <= SIZE_MAX ->
  within_capacity ar'.
Proof.
  intros Hh [Hsc Hcap] Hadd Hmax.
  destruct (buffer ar) as [l|] eqn:Hl; [|done].
  pose proof (holds_size_bound ar es Hh) as Hsb. unfold sizeof_ptr, SIZE_MAX in Hsb.
  pose proof Hh as [Hsz _].
  unfold array_add in Hadd. inv_bind Hadd. destruct a as [ar1 ok].
  destruct ok; cbn [negb] in Hadd; [|by inv_ret Hadd].
  inv_bind Hadd. inv_ret Hadd. injection Hadd as <-.
  apply store_Done in Hadda0 as (l1 & Hl1 & Hi & -> & _).
  cbn [capacity set_size set_buffer] in Hmax.
  assert (Hgoal : size ar1 < capacity ar1 /\ capacity ar1 <= Z.of_nat (length l1) ->
                  within_capacity
                    (set_size (set_buffer ar1 (Some (<[Z.to_nat (size ar1) := Val e]> l1)))
                              (size_add (size ar1) 1))).
  { intros [Hs1 Hc1]. unfold within_capacity. cbn [size capacity buffer set_size set_buffer].
    rewrite length_insert. split; [|done].
    unfold size_add. rewrite wrap_small; unfold sizeof_ptr, SIZE_MAX in *; lia. }
  apply Hgoal. clear Hgoal.
  destruct (Z.leb_spec (capacity ar) (size ar)) as [Hfull|Hroom].
  - unfold expand_capacity in Hadda.
    destruct (Z.eqb_spec (capacity ar) MAX_ELEMENTS); [by inv_ret Hadda|].
    destruct (size_of_float _) as [nc|] eqn:Hnc; [|done]. cbv zeta in Hadda.
    apply size_of_float_range in Hnc.
    pose proof (holds_buffer ar es) as Hlen. rewrite Hl in Hlen.
    inv_bind Hadda. destruct a as [nb|]; [|by inv_ret Hadda].
    inv_bind Hadda. inv_bind Hadda. inv_ret Hadda. injection Hadda as <-.
    apply call_alloc_Done in Haddaa as [?|Hnb]; [done|]. injection Hnb as ->.
    apply memmove_Done in Haddaa0
      as (dl & sl & [= <-] & Hsl & _ & _ & _ & _ & Hd & -> & _).
    cbn [buffer set_buffer] in Hl1. injection Hl1 as <-.
    assert (Hs1 : size (if nc <=? capacity ar then set_capacity ar MAX_ELEMENTS
                        else set_capacity ar nc) = size ar) by (by destruct (_ <=? _)).
    assert (Hb1 : buffer (if nc <=? capacity ar then set_capacity ar MAX_ELEMENTS
                          else set_capacity ar nc) = buffer ar) by (by destruct (_ <=? _)).
    rewrite Hb1, Hl in Hsl. injection Hsl as <-.
    cbn [size capacity set_buffer] in *. rewrite Hs1 in *.
    assert (Hn : size_mul (size ar) sizeof_ptr / sizeof_ptr = size ar)
      by (apply size_mul_slots; unfold sizeof_ptr, SIZE_MAX; lia).
    rewrite Hn in *. rewrite length_replicate in Hd.
    rewrite length_blit in * by (rewrite ?length_replicate; lia).
    rewrite length_replicate in *.
    assert (Hnb : 0 <= size_mul nc sizeof_ptr / sizeof_ptr)
      by (apply Z.div_pos; [apply wrap_range | done]).
    rewrite Z2Nat.id in * by done.
    destruct (Z.leb_spec nc (capacity ar)) as [Hclamp|Hgrow]; cbn [capacity set_capacity] in *.
    + exfalso.
      assert (size_mul nc sizeof_ptr / sizeof_ptr <= nc); [|lia].
      unfold size_mul, wrap, sizeof_ptr.
      apply Z.div_le_upper_bound; [lia|].
      pose proof (Z.mod_le (nc * 8) (2 ^ 64)). lia.
    + rewrite size_mul_slots in * by lia. lia.
  - inv_ret Hadda. injection Hadda as <-.
    rewrite Hl in Hl1. injection Hl1 as <-. lia.
Qed.

End GrowthSuccess.

Lemma array_add_grows_witness :
  (holds (default_array [1; 2; 3; 4; 5; 6; 7; 8]) [1; 2; 3; 4; 5; 6; 7; 8] /\
   capacity (default_array [1; 2; 3; 4; 5; 6; 7; 8])
   <= size (default_array [1; 2; 3; 4; 5; 6; 7; 8]) /\
   capacity (default_array [1; 2; 3; 4; 5; 6; 7; 8]) <> sample_ceiling /\
   size_of_float (float_mul (float_of_Z (capacity (default_array [1; 2; 3; 4; 5; 6; 7; 8])))
                            (exp_factor (default_array [1; 2; 3; 4; 5; 6; 7; 8]))) = Some 16) /\
  exists ar',
    array_add sample_ceiling (default_array [1; 2; 3; 4; 5; 6; 7; 8]) 9 [true]
    = Done (ar', true) [] /\
    holds ar' ([1; 2; 3; 4; 5; 6; 7; 8] ++ [9]) /\
    capacity ar' = 16.
Proof.
  assert (Hh : holds (default_array [1; 2; 3; 4; 5; 6; 7; 8]) [1; 2; 3; 4; 5; 6; 7; 8])
    by (apply holds_default; simpl; lia).
  assert (Hfull : capacity (default_array [1; 2; 3; 4; 5; 6; 7; 8])
                  <= size (default_array [1; 2; 3; 4; 5; 6; 7; 8]))
    by (vm_compute; discriminate).
  assert (Hne : capacity (default_array [1; 2; 3; 4; 5; 6; 7; 8]) <> sample_ceiling)
    by (vm_compute; discriminate).
  assert (Hnc : size_of_float
                  (float_mul (float_of_Z (capacity (default_array [1; 2; 3; 4; 5; 6; 7; 8])))
                             (exp_factor (default_array [1; 2; 3; 4; 5; 6; 7; 8]))) = Some 16)
    by (vm_compute; reflexivity).
  split; [by repeat split|].
  destruct (array_add_grows sample_ceiling (default_array [1; 2; 3; 4; 5; 6; 7; 8])
              [1; 2; 3; 4; 5; 6; 7; 8] _ 9 16 [] Hh eq_refl Hfull Hne Hnc)
    as (ar' & Hrun & Hh' & Hc & _).
  - reflexivity.
  - vm_compute. discriminate.
  - exists ar'. split; [exact Hrun|]. split; [exact Hh' | exact Hc].
Defined.

Lemma array_add_within_capacity_witness :
  (holds (default_array [10; 20]) [10; 20] /\
   within_capacity (default_array [10; 20]) /\
   array_add sample_ceiling (default_array [10; 20]) 30 []
   = Done (default_array [10; 20; 30], true) []) /\
  within_capacity (default_array [10; 20; 30]).
Proof.
  assert (Hh : holds (default_array [10; 20]) [10; 20]) by (apply holds_default; simpl; lia).
  assert (Hw : within_capacity (default_array [10; 20]))
    by (split; vm_compute; discriminate).
  assert (Hadd : array_add sample_ceiling (default_array [10; 20]) 30 []
                 = Done (default_array [10; 20; 30], true) []) by reflexivity.
  split; [by repeat split|].
  apply (array_add_within_capacity sample_ceiling (default_array [10; 20]) [10; 20] 30 []
           (default_array [10; 20; 30]) [] Hh Hw Hadd).
  vm_compute. discriminate.
Defined.
